(** * runna_sync: the workout translator (src/runna_sync.py)

    A shallow embedding of [RunnaTranslatorStateMachine] and of the helpers
    it calls, then of the pure code around it (the log levels, the ICS
    parser, the selection of events, the payload and the validation
    report), followed by their properties.  The HTTP calls, the logging and
    the clock are not modelled: a function that reads the clock takes the
    date as an argument.

    Text model.  A Python [str] is a Rocq [string] holding its UTF-8
    encoding: an ASCII character is one [ascii], and the character tables
    ([str.isspace], [\s], [\d], [\w], [str.lower], the line boundaries of
    [str.splitlines]) are Python's on the codes below 128.  The bytes of a
    non-ASCII character (all from 128 up) are carried through as characters
    with no case that are neither blank, digit, word character nor line
    boundary, as the bullet U+2022 of the feed is; Python's tables for the
    other non-ASCII characters are not modelled.  Python integers are [N]
    where the code only has counts and sizes, [Z] elsewhere. *)

From Stdlib Require Import String Ascii List Bool NArith ZArith Arith Lia.
From Stdlib Require Import DecimalString.
Import ListNotations.
Open Scope string_scope.

(* ================================================================== *)
(** * Python string methods *)
(* ================================================================== *)
Module Py.

Definition LF : ascii := "010"%char.

Definition code (c : ascii) : N := N_of_ascii c.

Definition between (lo hi : N) (c : ascii) : bool :=
  (lo <=? code c)%N && (code c <=? hi)%N.

(** [str.isspace] on one character, also the class [\s]:
    TAB LF VT FF CR, FS GS RS US and the space. *)
Definition isspace (c : ascii) : bool :=
  between 9 13 c || between 28 32 c.

(** The class [\d]. *)
Definition isdigit (c : ascii) : bool := between 48 57 c.

Definition isupper (c : ascii) : bool := between 65 90 c.
Definition islower (c : ascii) : bool := between 97 122 c.

(** The class [\w]: letters, digits and the underscore. *)
Definition isword (c : ascii) : bool :=
  isupper c || islower c || isdigit c || (code c =? 95)%N.

Definition lower_char (c : ascii) : ascii :=
  if isupper c then ascii_of_N (code c + 32) else c.

(** [s.lower()] *)
Fixpoint lower (s : string) : string :=
  match s with
  | EmptyString => EmptyString
  | String c t => String (lower_char c) (lower t)
  end.

(** [s.lstrip()] *)
Fixpoint lstrip (s : string) : string :=
  match s with
  | EmptyString => EmptyString
  | String c t => if isspace c then lstrip t else s
  end.

(** [s.rstrip()] *)
Fixpoint rstrip (s : string) : string :=
  match s with
  | EmptyString => EmptyString
  | String c t =>
      match rstrip t with
      | EmptyString => if isspace c then EmptyString else String c EmptyString
      | r => String c r
      end
  end.

(** [s.strip()] *)
Definition strip (s : string) : string := rstrip (lstrip s).

(** [s.rstrip(ch)] for a one-character argument. *)
Fixpoint rstrip_char (ch : ascii) (s : string) : string :=
  match s with
  | EmptyString => EmptyString
  | String c t =>
      match rstrip_char ch t with
      | EmptyString => if Ascii.eqb c ch then EmptyString else String c EmptyString
      | r => String c r
      end
  end.

(** [s.startswith(p)] *)
Definition startswith (s p : string) : bool := String.prefix p s.

(** [sub in s] *)
Fixpoint contains (sub s : string) : bool :=
  String.prefix sub s ||
  match s with
  | EmptyString => false
  | String _ t => contains sub t
  end.

(** [s[n:]] *)
Fixpoint drop (n : nat) (s : string) : string :=
  match n, s with
  | O, _ => s
  | S _, EmptyString => EmptyString
  | S n', String _ t => drop n' t
  end.

(** [s[i:j]] *)
Definition slice (i j : nat) (s : string) : string := substring i (j - i) s.

(** [s.split(sep)] for a one-character separator: the fields between the
    separators, empty ones included. *)
Fixpoint split (sep : ascii) (s : string) : list string :=
  match s with
  | EmptyString => [EmptyString]
  | String c t =>
      if Ascii.eqb c sep then EmptyString :: split sep t
      else match split sep t with
           | [] => [String c EmptyString]
           | f :: fs => String c f :: fs
           end
  end.

(** A line boundary of [str.splitlines]: LF VT FF CR FS GS RS. *)
Definition islinebreak (c : ascii) : bool :=
  between 10 13 c || between 28 30 c.

(** [s.splitlines()]: the lines without their boundaries; CR LF is one
    boundary; no empty last line after a final boundary. *)
Fixpoint splitlines_aux (cur : string) (s : string) : list string :=
  match s with
  | EmptyString =>
      match cur with EmptyString => [] | _ => [cur] end
  | String c t =>
      if islinebreak c then
        match t with
        | String d t' =>
            if (code c =? 13)%N && (code d =? 10)%N
            then cur :: splitlines_aux EmptyString t'
            else cur :: splitlines_aux EmptyString t
        | EmptyString => [cur]
        end
      else splitlines_aux (cur ++ String c EmptyString) t
  end.

Definition splitlines (s : string) : list string :=
  splitlines_aux EmptyString s.

(** [sep.join(l)] *)
Fixpoint join (sep : string) (l : list string) : string :=
  match l with
  | [] => EmptyString
  | [x] => x
  | x :: t => x ++ sep ++ join sep t
  end.

(** [str(n)], also [f"{n}"], for a non-negative integer. *)
Definition str (n : N) : string := NilZero.string_of_uint (N.to_uint n).

(** [int(s)] on a run of decimal digits (every call site passes the text
    captured by [(\d+)]). *)
Definition digit_value (c : ascii) : N := (code c - 48)%N.

Fixpoint int_acc (acc : N) (s : string) : N :=
  match s with
  | EmptyString => acc
  | String c t => int_acc (10 * acc + digit_value c)%N t
  end.

Definition int (s : string) : N := int_acc 0 s.

Definition upper_char (c : ascii) : ascii :=
  if islower c then ascii_of_N (code c - 32) else c.

(** [s.upper()] *)
Fixpoint upper (s : string) : string :=
  match s with
  | EmptyString => EmptyString
  | String c t => String (upper_char c) (upper t)
  end.

(** [s.rstrip(chars)]: the characters of [chars] are stripped from the
    end. *)
Fixpoint rstrip_chars (chars : string) (s : string) : string :=
  match s with
  | EmptyString => EmptyString
  | String c t =>
      match rstrip_chars chars t with
      | EmptyString =>
          if existsb (Ascii.eqb c) (list_ascii_of_string chars)
          then EmptyString else String c EmptyString
      | r => String c r
      end
  end.

(** [s.isdigit()]: not empty, and digits only. *)
Fixpoint all_digits (s : string) : bool :=
  match s with
  | EmptyString => true
  | String c t => isdigit c && all_digits t
  end.

Definition str_isdigit (s : string) : bool :=
  match s with EmptyString => false | _ => all_digits s end.

(** [s.replace(old, new)] for an [old] that is not empty: the occurrences
    of [old], left to right and without overlap.  [skip] counts the
    characters of an occurrence still to pass over. *)
Fixpoint replace_from (skip : nat) (old new : string) (s : string) : string :=
  match s with
  | EmptyString => EmptyString
  | String c t =>
      match skip with
      | S k => replace_from k old new t
      | O =>
          if String.prefix old s
          then new ++ replace_from (String.length old - 1) old new t
          else String c (replace_from 0 old new t)
      end
  end.

Definition replace (old new : string) (s : string) : string :=
  replace_from 0 old new s.

(** [s.split(sep, 1)] for a one-character separator: the text before the
    first separator and, when there is one, the text after it. *)
Fixpoint split_once (sep : ascii) (s : string) : string * option string :=
  match s with
  | EmptyString => (EmptyString, None)
  | String c t =>
      if Ascii.eqb c sep then (EmptyString, Some t)
      else let (a, b) := split_once sep t in (String c a, b)
  end.

(** [s[:n]] *)
Definition take (n : nat) (s : string) : string := substring 0 n s.

(** [f"{n:0{width}d}"]: the numeral, with zeros in front up to [width]. *)
Fixpoint zeros (n : nat) : string :=
  match n with O => EmptyString | S k => String "0" (zeros k) end.

Definition zfill (width : nat) (n : N) : string :=
  zeros (width - String.length (str n)) ++ str n.

End Py.

(* ================================================================== *)
(** * Python regular expressions ([re]): a backtracking matcher *)
(* ================================================================== *)
Module Re.

(** The fragment of the pattern language the translator uses. *)
Inductive regex : Type :=
| Chr (c : ascii)                  (* a literal character *)
| Cls (p : ascii -> bool)          (* a character class *)
| Cat (r1 r2 : regex)              (* r1 r2 *)
| Star (r : regex)                 (* r*, greedy *)
| Opt (r : regex)                  (* r?, greedy *)
| Grp (n : nat) (r : regex)        (* the n-th capturing group *)
| Bol                              (* ^ *)
| Eol                              (* $ *)
| WordB.                           (* \b *)

Definition Plus (r : regex) : regex := Cat r (Star r).

(** A literal word. *)
Fixpoint Lit (s : string) : regex :=
  match s with
  | EmptyString => Opt (Cls (fun _ => false))
  | String c EmptyString => Chr c
  | String c t => Cat (Chr c) (Lit t)
  end.

Definition digit : regex := Cls Py.isdigit.                    (* \d *)
Definition space : regex := Cls Py.isspace.                    (* \s *)
Definition dot : regex := Cls (fun c => negb (Ascii.eqb c Py.LF)). (* . *)

(** Where the matcher stands: the character before, the offset, the text
    still to read. *)
Record cursor : Type := mkCursor {
  before : option ascii;
  pos : nat;
  rest : string
}.

Definition start_of (s : string) : cursor := mkCursor None 0 s.

(** The spans (start, end) of the groups matched so far, latest first. *)
Definition spans : Type := list (nat * (nat * nat)).

Definition result : Type := option (nat * spans).

Definition isword_opt (o : option ascii) : bool :=
  match o with Some c => Py.isword c | None => false end.

Definition next_char (c : cursor) : option ascii :=
  match rest c with String x _ => Some x | EmptyString => None end.

Definition at_eol (c : cursor) : bool :=
  match rest c with
  | EmptyString => true
  | String x EmptyString => Ascii.eqb x Py.LF
  | _ => false
  end.

Definition eat (p : ascii -> bool) (c : cursor)
    (k : cursor -> result) : result :=
  match rest c with
  | String x t => if p x then k (mkCursor (Some x) (S (pos c)) t) else None
  | EmptyString => None
  end.

Definition same_char (ignorecase : bool) (a x : ascii) : bool :=
  if ignorecase then Ascii.eqb (Py.lower_char a) (Py.lower_char x)
  else Ascii.eqb a x.

(** [run ic r c g k]: match [r] at [c], then go on with [k]; the first
    success in backtracking order wins.  A star tries one more round before
    it gives way, and a round must consume input. *)
Fixpoint run (ic : bool) (r : regex) (c : cursor) (g : spans)
    (k : cursor -> spans -> result) {struct r} : result :=
  match r with
  | Chr a => eat (same_char ic a) c (fun c' => k c' g)
  | Cls p => eat p c (fun c' => k c' g)
  | Cat r1 r2 => run ic r1 c g (fun c' g' => run ic r2 c' g' k)
  | Star r1 =>
      (fix rounds (fuel : nat) (c : cursor) (g : spans) {struct fuel} : result :=
         match fuel with
         | O => k c g
         | S fuel' =>
             match run ic r1 c g
                     (fun c' g' =>
                        if (pos c <? pos c')%nat then rounds fuel' c' g' else None)
             with
             | Some res => Some res
             | None => k c g
             end
         end) (String.length (rest c)) c g
  | Opt r1 =>
      match run ic r1 c g k with
      | Some res => Some res
      | None => k c g
      end
  | Grp n r1 => run ic r1 c g (fun c' g' => k c' ((n, (pos c, pos c')) :: g'))
  | Bol => if (pos c =? 0)%nat then k c g else None
  | Eol => if at_eol c then k c g else None
  | WordB =>
      if xorb (isword_opt (before c)) (isword_opt (next_char c))
      then k c g else None
  end.

Definition accept : cursor -> spans -> result :=
  fun c g => Some (pos c, g).

(** A match object: the subject, the span of the match, the groups. *)
Record match_obj : Type := mkMatch {
  subject : string;
  m_start : nat;
  m_end : nat;
  m_spans : spans
}.

Fixpoint span_of (n : nat) (g : spans) : option (nat * nat) :=
  match g with
  | [] => None
  | (m, se) :: g' => if (m =? n)%nat then Some se else span_of n g'
  end.

(** [m.group(n)] of a group that took part in the match. *)
Definition group (n : nat) (m : match_obj) : string :=
  match span_of n (m_spans m) with
  | Some (s, e) => Py.slice s e (subject m)
  | None => EmptyString
  end.

Definition match_at (ic : bool) (r : regex) (whole : string) (c : cursor)
    : option match_obj :=
  match run ic r c [] accept with
  | Some (e, g) => Some (mkMatch whole (pos c) e g)
  | None => None
  end.

(** [pattern.match(s)]: at the start of the text only. *)
Definition match_with (ic : bool) (r : regex) (s : string) : option match_obj :=
  match_at ic r s (start_of s).

Fixpoint scan (ic : bool) (r : regex) (whole : string) (b : option ascii)
    (i : nat) (s : string) {struct s} : option match_obj :=
  match match_at ic r whole (mkCursor b i s) with
  | Some m => Some m
  | None =>
      match s with
      | EmptyString => None
      | String x t => scan ic r whole (Some x) (S i) t
      end
  end.

(** [pattern.search(s)]: the leftmost match. *)
Definition search_with (ic : bool) (r : regex) (s : string)
    : option match_obj :=
  scan ic r s None 0 s.

Definition last_of (b : option ascii) (s : string) : option ascii :=
  (fix go (b : option ascii) (s : string) : option ascii :=
     match s with
     | EmptyString => b
     | String x t => go (Some x) t
     end) b s.

(** [re.sub(pattern, "", s)]: every match, left to right and without
    overlap, is deleted.  (No pattern of this program matches the empty
    text; an empty match deletes nothing here.) *)
Fixpoint delete_from (fuel : nat) (ic : bool) (r : regex) (b : option ascii)
    (i : nat) (s : string) {struct fuel} : string :=
  match fuel with
  | O => s
  | S fuel' =>
      match run ic r (mkCursor b i s) [] accept with
      | Some (e, _) =>
          if (i <? e)%nat
          then delete_from fuel' ic r
                 (last_of b (substring 0 (e - i) s)) e (Py.drop (e - i) s)
          else match s with
               | EmptyString => EmptyString
               | String x t => String x (delete_from fuel' ic r (Some x) (S i) t)
               end
      | None =>
          match s with
          | EmptyString => EmptyString
          | String x t => String x (delete_from fuel' ic r (Some x) (S i) t)
          end
      end
  end.

Definition delete_with (ic : bool) (r : regex) (s : string) : string :=
  delete_from (S (String.length s)) ic r None 0 s.

Definition is_some {A : Type} (o : option A) : bool :=
  match o with Some _ => true | None => false end.

(** A compiled pattern: the expression and its [re.IGNORECASE] flag. *)
Record pattern : Type := compile { expr : regex; ignorecase : bool }.

(** [p.search(s)] *)
Definition search (p : pattern) (s : string) : option match_obj :=
  search_with (ignorecase p) (expr p) s.

(** [p.match(s)] *)
Definition rmatch (p : pattern) (s : string) : option match_obj :=
  match_with (ignorecase p) (expr p) s.

(** [p.sub("", s)] *)
Definition sub_empty (p : pattern) (s : string) : string :=
  delete_with (ignorecase p) (expr p) s.

End Re.

Import Re.

(* ================================================================== *)
(** * Translator: patterns and line helpers *)
(* ================================================================== *)

(** [(\d+:\d{2})] as group [n]. *)
Definition pace_group (n : nat) : regex :=
  Grp n (Cat (Plus digit) (Cat (Chr ":") (Cat digit digit))).

(** [(\d+:\d{2})/km] *)
Definition PACE_RE : pattern :=
  compile (Cat (pace_group 1) (Lit "/km")) false.

(** [(\d+:\d{2})-(\d+:\d{2})/km] *)
Definition RANGE_RE : pattern :=
  compile (Cat (pace_group 1) (Cat (Chr "-") (Cat (pace_group 2) (Lit "/km"))))
          false.

(** [(\d+(?:\.\d+)?)\s*km\b], ignoring case *)
Definition KM_RE : pattern :=
  compile (Cat (Grp 1 (Cat (Plus digit) (Opt (Cat (Chr ".") (Plus digit)))))
               (Cat (Star space) (Cat (Lit "km") WordB)))
          true.

(** [(\d+)\s*<unit>\b] *)
Definition count_unit (unit : ascii) : regex :=
  Cat (Grp 1 (Plus digit)) (Cat (Star space) (Cat (Chr unit) WordB)).

(** [(\d+)\s*m\b], ignoring case: metres *)
Definition M_DIST_RE : pattern := compile (count_unit "m") true.
(** [(\d+)\s*s\b], ignoring case *)
Definition SEC_RE : pattern := compile (count_unit "s") true.
(** [(\d+)\s*m\b], ignoring case: minutes *)
Definition MIN_RE : pattern := compile (count_unit "m") true.

(** [\s*:?\s*$] *)
Definition header_end : regex :=
  Cat (Star space) (Cat (Opt (Chr ":")) (Cat (Star space) Eol)).

(** [^\s*(\d+)\s*reps of\s*:?\s*$], ignoring case *)
Definition REPS_RE : pattern :=
  compile (Cat Bol (Cat (Star space) (Cat (Grp 1 (Plus digit))
            (Cat (Star space) (Cat (Lit "reps of") header_end)))))
          true.

(** [^\s*repeat the following\s+(\d+)x\s*:?\s*$], ignoring case *)
Definition REPEAT_FOLLOWING_RE : pattern :=
  compile (Cat Bol (Cat (Star space) (Cat (Lit "repeat the following")
            (Cat (Plus space) (Cat (Grp 1 (Plus digit))
              (Cat (Chr "x") header_end))))))
          true.

(** [^\s*-{3,}\s*$] *)
Definition SEP_LINE_RE : pattern :=
  compile (Cat Bol (Cat (Star space)
            (Cat (Chr "-") (Cat (Chr "-") (Cat (Chr "-") (Cat (Star (Chr "-"))
              (Cat (Star space) Eol)))))))
          false.

Definition FAST_BURSTS_HINT : string := "add 3x 15s fast bursts".

Definition NOISE_SUBSTRINGS : list string :=
  [ "view in the runna app"; "ðŸ“²" ].

(** The bullet literal of [clean_line], three characters as the source file
    spells it; its first character takes two bytes. *)
Definition BULLET : string := "â€¢".
Definition BULLET_FIRST_CHAR_BYTES : nat := 2.

(** [\(no faster than[^)]*\)], ignoring case *)
Definition PACE_CAP_RE : pattern :=
  compile (Cat (Chr "(") (Cat (Lit "no faster than")
            (Cat (Star (Cls (fun c => negb (Ascii.eqb c ")")))) (Chr ")"))))
          true.

(** [\b<phrase>\b.*$], ignoring case *)
Definition disclaimer_to_end (phrase : string) : pattern :=
  compile (Cat WordB (Cat (Lit phrase) (Cat WordB (Cat (Star dot) Eol)))) true.

(** [\brun at whatever pace feels truly easy!?$], ignoring case *)
Definition WHATEVER_PACE_RE : pattern :=
  compile (Cat WordB (Cat (Lit "run at whatever pace feels truly easy")
            (Cat (Opt (Chr "!")) Eol)))
          true.

(** [[.\s]+$] *)
Definition TRAILING_RE : pattern :=
  compile (Cat (Plus (Cls (fun c => Ascii.eqb c "." || Py.isspace c))) Eol)
          false.

Definition clean_line (s : string) : string :=
  let s := Py.strip s in
  let s := if Py.startswith s BULLET
           then Py.strip (Py.drop BULLET_FIRST_CHAR_BYTES s) else s in
  let s := Py.strip (sub_empty PACE_CAP_RE s) in
  let s := Py.strip (sub_empty (disclaimer_to_end "this is a limit") s) in
  let s := Py.strip (sub_empty (disclaimer_to_end "not a target") s) in
  let s := Py.strip (sub_empty WHATEVER_PACE_RE s) in
  let s := Py.strip (sub_empty TRAILING_RE s) in
  s.

Definition nonempty (s : string) : bool :=
  match s with EmptyString => false | _ => true end.

Definition split_on_commas (line : string) : list string :=
  let parts := filter nonempty (map Py.strip (Py.split "," line)) in
  match parts with
  | [] => [Py.strip line]
  | _ => parts
  end.

Definition pad3 (r : N) : string :=
  if (r <? 10)%N then "00" ++ Py.str r
  else if (r <? 100)%N then "0" ++ Py.str r
  else Py.str r.

(** [meters / 1000.0] printed with [.3f], then stripped of its final zeros
    and of a final point.  The quotient of an integer by 1000 has three
    decimals, so the rendering is computed on [N]; the float of the source
    prints these same digits while [meters] stays below 2^52. *)
Definition meters_to_km_str (meters : N) : string :=
  let s := Py.str (meters / 1000) ++ "." ++ pad3 (meters mod 1000) in
  Py.rstrip_char "." (Py.rstrip_char "0" s) ++ "km".

Definition parse_distance (line : string) : option string :=
  match search KM_RE line with
  | Some km => Some (group 1 km ++ "km")
  | None =>
      match search M_DIST_RE line with
      | Some m => Some (meters_to_km_str (Py.int (group 1 m)))
      | None => None
      end
  end.

Definition parse_duration (line : string) : option string :=
  match search SEC_RE line with
  | Some m => Some (Py.str (Py.int (group 1 m)) ++ "s")
  | None =>
      match search MIN_RE line with
      | Some m => Some (Py.str (Py.int (group 1 m)) ++ "m")
      | None => None
      end
  end.

Definition any_in (needles : list string) (hay : string) : bool :=
  existsb (fun x => Py.contains x hay) needles.

Definition is_noise (line : string) : bool :=
  any_in NOISE_SUBSTRINGS (Py.lower line).

Definition HILL_WORDS : list string :=
  [ "hill"; "uphill"; "downhill"; "jog back down"; "jog downhill";
    "base of hill" ].

Definition is_hills_by_text (full_description : string) : bool :=
  any_in HILL_WORDS (Py.lower full_description).

Definition conversational_zone (workout_name context : string) : string :=
  let wn := Py.lower workout_name in
  if String.eqb context "warmup" || String.eqb context "cooldown"
  then "Z1-Z3 Pace"
  else if Py.contains "long run" wn then "Z1-Z2 Pace"
  else "Z1-Z3 Pace".

Definition single_line_easy_zone : string := "Z2-Z3 Pace".

(* ================================================================== *)
(** * Translator: the state machine *)
(* ================================================================== *)

Inductive TState : Type :=
| NORMAL
| REPEAT_OPEN            (* repeat without separators *)
| REPEAT_SEP_WAIT_OPEN   (* after repeat header waiting for first separator *)
| REPEAT_SEP_CAPTURE.    (* capturing ONLY between separators *)

(** A step is a Python string object: its text, and the identity [id(step)]
    under which [cooldown_steps] remembers it.  Every string the translator
    builds is a new object; [next_id] of the machine numbers them. *)
Record Step : Type := mkStep { step_id : nat; text : string }.

Record Group : Type := mkGroup { title : string; steps : list Step }.

Record RunnaTranslatorStateMachine : Type := mkSM {
  workout_name : string;
  full_description : string;
  hills_mode : bool;
  groups : list Group;
  current : Group;
  partial : bool;
  state : TState;
  repeat_group : option Group;
  repeat_first_step_pending : bool;
  hills_fallback_added : bool;        (* hills-only fallback injection guard *)
  cooldown_steps : list nat;          (* a set of object identities *)
  next_id : nat
}.

Definition SM : Type := RunnaTranslatorStateMachine.

Definition set_groups (v : list Group) (sm : SM) : SM :=
  mkSM (workout_name sm) (full_description sm) (hills_mode sm) v (current sm)
       (partial sm) (state sm) (repeat_group sm)
       (repeat_first_step_pending sm) (hills_fallback_added sm)
       (cooldown_steps sm) (next_id sm).

Definition set_current (v : Group) (sm : SM) : SM :=
  mkSM (workout_name sm) (full_description sm) (hills_mode sm) (groups sm) v
       (partial sm) (state sm) (repeat_group sm)
       (repeat_first_step_pending sm) (hills_fallback_added sm)
       (cooldown_steps sm) (next_id sm).

Definition set_partial (v : bool) (sm : SM) : SM :=
  mkSM (workout_name sm) (full_description sm) (hills_mode sm) (groups sm)
       (current sm) v (state sm) (repeat_group sm)
       (repeat_first_step_pending sm) (hills_fallback_added sm)
       (cooldown_steps sm) (next_id sm).

Definition set_state (v : TState) (sm : SM) : SM :=
  mkSM (workout_name sm) (full_description sm) (hills_mode sm) (groups sm)
       (current sm) (partial sm) v (repeat_group sm)
       (repeat_first_step_pending sm) (hills_fallback_added sm)
       (cooldown_steps sm) (next_id sm).

Definition set_repeat_group (v : option Group) (sm : SM) : SM :=
  mkSM (workout_name sm) (full_description sm) (hills_mode sm) (groups sm)
       (current sm) (partial sm) (state sm) v
       (repeat_first_step_pending sm) (hills_fallback_added sm)
       (cooldown_steps sm) (next_id sm).

Definition set_repeat_first_step_pending (v : bool) (sm : SM) : SM :=
  mkSM (workout_name sm) (full_description sm) (hills_mode sm) (groups sm)
       (current sm) (partial sm) (state sm) (repeat_group sm)
       v (hills_fallback_added sm) (cooldown_steps sm) (next_id sm).

Definition set_hills_fallback_added (v : bool) (sm : SM) : SM :=
  mkSM (workout_name sm) (full_description sm) (hills_mode sm) (groups sm)
       (current sm) (partial sm) (state sm) (repeat_group sm)
       (repeat_first_step_pending sm) v (cooldown_steps sm) (next_id sm).

Definition set_cooldown_steps (v : list nat) (sm : SM) : SM :=
  mkSM (workout_name sm) (full_description sm) (hills_mode sm) (groups sm)
       (current sm) (partial sm) (state sm) (repeat_group sm)
       (repeat_first_step_pending sm) (hills_fallback_added sm) v (next_id sm).

Definition set_next_id (v : nat) (sm : SM) : SM :=
  mkSM (workout_name sm) (full_description sm) (hills_mode sm) (groups sm)
       (current sm) (partial sm) (state sm) (repeat_group sm)
       (repeat_first_step_pending sm) (hills_fallback_added sm)
       (cooldown_steps sm) v.

(** [steps.append(step)] *)
Definition append_step (g : Group) (s : Step) : Group :=
  mkGroup (title g) (steps g ++ [s]).

(** A new string object with the given text. *)
Definition new_str (t : string) (sm : SM) : Step * SM :=
  (mkStep (next_id sm) t, set_next_id (S (next_id sm)) sm).

(** [id(step) in self.cooldown_steps] *)
Definition is_cooldown_step (sm : SM) (s : Step) : bool :=
  existsb (Nat.eqb (step_id s)) (cooldown_steps sm).

(** [__init__] *)
Definition init (workout_name full_description : string) : SM :=
  mkSM workout_name full_description (is_hills_by_text full_description)
       [] (mkGroup "Main Set" []) false NORMAL None false false [] 0.

Definition has_steps (g : Group) : bool :=
  match steps g with [] => false | _ => true end.

Definition _flush_current (sm : SM) : SM :=
  let sm := if has_steps (current sm)
            then set_groups (groups sm ++ [current sm]) sm else sm in
  set_current (mkGroup "Main Set" []) sm.

Definition _start_group (title : string) (sm : SM) : SM :=
  set_current (mkGroup title []) (_flush_current sm).

Definition _start_repeat_group (reps : N) (sm : SM) : SM :=
  let sm := _flush_current sm in
  let sm := set_repeat_group (Some (mkGroup ("Main Set " ++ Py.str reps ++ "x") [])) sm in
  set_repeat_first_step_pending true sm.

Definition _close_repeat_group (sm : SM) : SM :=
  let sm := match repeat_group sm with
            | Some rg => if has_steps rg
                         then set_groups (groups sm ++ [rg]) sm else sm
            | None => sm
            end in
  set_repeat_first_step_pending false (set_repeat_group None sm).

(** Only include the "2m Z1-Z2 Pace" fallback in context of a hill. *)
Definition _add_hills_fallback_if_needed (sm : SM) : SM :=
  if hills_mode sm && negb (hills_fallback_added sm) then
    let (step, sm) := new_str "- 2m Z1-Z2 Pace" sm in
    set_hills_fallback_added true
      (set_current (append_step (current sm) step) sm)
  else sm.

Definition _add_step (step : Step) (into_repeat : bool) (sm : SM) : SM :=
  match into_repeat, repeat_group sm with
  | true, Some rg =>
      if hills_mode sm && repeat_first_step_pending sm then
        let (step, sm) :=
          if Py.startswith (text step) "- "
          then new_str ("- run uphill " ++ Py.drop 2 (text step)) sm
          else new_str ("run uphill " ++ text step) sm in
        let sm := set_repeat_first_step_pending false sm in
        set_repeat_group (Some (append_step rg step)) sm
      else set_repeat_group (Some (append_step rg step)) sm
  | _, _ => set_current (append_step (current sm) step) sm
  end.

(** Build the step text, then [_add_step] it. *)
Definition emit (t : string) (into_repeat : bool) (sm : SM) : SM :=
  let (step, sm) := new_str t sm in _add_step step into_repeat sm.

(** [x or default] *)
Definition or_else (o : option string) (d : string) : string :=
  match o with Some s => s | None => d end.

(** [l[:-1]] and [l[-1]] of a list that is not empty. *)
Fixpoint unsnoc {A : Type} (l : list A) : option (list A * A) :=
  match l with
  | [] => None
  | x :: t =>
      match unsnoc t with
      | None => Some ([], x)
      | Some (i, z) => Some (x :: i, z)
      end
  end.

(** [\b(\d+)<unit>\b], as searched in the previous step of a jog down. *)
Definition prev_count (unit : ascii) : pattern :=
  compile (Cat WordB (Cat (Grp 1 (Plus digit)) (Cat (Chr unit) WordB))) false.

Definition DOWNHILL_PHRASES : list string :=
  [ "easy jog back down"; "jog back down"; "easy jog back"; "jog downhill";
    "downhill" ].

(** The duration of the jog down: twice the seconds, else twice the minutes,
    of the last step of the group the jog goes to; 120s without them. *)
Definition jog_duration (prev_steps : list Step) : string :=
  match unsnoc prev_steps with
  | None => "120s"
  | Some (_, prev) =>
      match search (prev_count "s") (text prev) with
      | Some ms => Py.str (Py.int (group 1 ms) * 2) ++ "s"
      | None =>
          match search (prev_count "m") (text prev) with
          | Some mm => Py.str (Py.int (group 1 mm) * 2) ++ "m"
          | None => "120s"
          end
      end
  end.

(** The steps the next step is appended to. *)
Definition target_steps (into_repeat : bool) (sm : SM) : list Step :=
  match into_repeat, repeat_group sm with
  | true, Some rg => steps rg
  | _, _ => steps (current sm)
  end.

Definition _process_fragment (frag : string)
    (allow_group_change into_repeat : bool) (sm : SM) : SM :=
  let line := clean_line frag in
  if negb (nonempty line) || is_noise line || is_some (rmatch SEP_LINE_RE line)
  then sm else
  let ll := Py.lower line in
  (* Ignore fast bursts instruction entirely *)
  if Py.contains FAST_BURSTS_HINT ll then sm else
  (* Warmup / cooldown group changes only allowed outside repeat capture *)
  if allow_group_change && Py.contains "warm up" ll then
    let sm := _start_group "Warmup" sm in
    let dist := or_else (parse_distance line) "2m" in
    emit ("- " ++ dist ++ " ramp " ++ conversational_zone (workout_name sm) "warmup")
         false sm
  else
  if allow_group_change && Py.contains "cool down" ll then
    let sm := _start_group "Cooldown" sm in
    let dist := or_else (parse_distance line) "2m" in
    let (step, sm) := new_str ("- " ++ dist ++ " ramp Z3-Z1 Pace") sm in
    let sm := _add_step step false sm in
    set_cooldown_steps (step_id step :: cooldown_steps sm) sm
  else
  (* Walking rest -> Z1 Pace *)
  if Py.contains "walking rest" ll then
    let dur := or_else (parse_duration line) "90s" in
    emit ("- " ++ dur ++ " Z1 Pace") into_repeat sm
  else
  (* Hills rules (HR only for hills) *)
  if hills_mode sm &&
     (Py.contains "running hard uphill" ll
      || (Py.contains "hard" ll && Py.contains "uphill" ll)) then
    let dur := or_else (parse_duration line) "2m" in
    emit ("- " ++ dur ++ " Z3-Z5 HR") into_repeat sm
  else
  if hills_mode sm && any_in DOWNHILL_PHRASES ll then
    let jog_dur := jog_duration (target_steps into_repeat sm) in
    emit ("- Press lap, Jog Downhill " ++ jog_dur ++ " Z1-Z2 Pace") into_repeat sm
  else
  (* "easy jog" / "easy run" phrases => Z1-Z2 Pace *)
  if (Py.contains "easy jog" ll || Py.contains "easy run" ll)
     && (is_some (parse_distance line) || is_some (parse_duration line)) then
    match parse_distance line with
    | Some dist => emit ("- " ++ dist ++ " Z1-Z2 Pace") into_repeat sm
    | None =>
        (* [dur] is not [None] here; [f"{None}"] would print "None" *)
        emit ("- " ++ or_else (parse_duration line) "None" ++ " Z1-Z2 Pace")
             into_repeat sm
    end
  else
  (* Distance + pace parsing *)
  match parse_distance line, search RANGE_RE line, search PACE_RE line with
  | Some dist, Some rng, _ =>
      let target := group 1 rng in
      let lo := group 1 rng in
      let hi := group 2 rng in
      emit ("- " ++ dist ++ " " ++ target ++ "/km PACE (" ++ lo ++ "-" ++ hi ++ "/km) Pace")
           into_repeat sm
  | Some dist, None, Some pace =>
      emit ("- " ++ dist ++ " " ++ group 1 pace ++ "/km Pace") into_repeat sm
  | Some dist, None, None =>
      (* Conversational pace handling *)
      if Py.contains "conversational" ll then
        emit ("- " ++ dist ++ " " ++ conversational_zone (workout_name sm) "main")
             into_repeat sm
      (* Single-line easy run style *)
      else if Py.contains "easy run" ll
              || (Py.startswith (Py.lower (workout_name sm)) "easy run"
                  && Py.contains "easy" ll) then
        emit ("- " ++ dist ++ " " ++ single_line_easy_zone) into_repeat sm
      (* Distance-only *)
      else emit ("- " ++ dist ++ " Z1-Z2 Pace") into_repeat sm
  | None, _, _ =>
      (* Duration-only *)
      match parse_duration line with
      | Some dur => emit ("- " ++ dur ++ " Z1-Z2 Pace") into_repeat sm
      | None =>
          (* Unknown fragment *)
          _add_hills_fallback_if_needed (set_partial true sm)
      end
  end.

Definition DEFAULT_TEXT : string :=
  "Main Set" ++ String Py.LF "- 60m Z1-Z2 Pace".

Definition in_repeat (s : TState) : bool :=
  match s with NORMAL => false | _ => true end.

Definition capturing (s : TState) : bool :=
  match s with REPEAT_OPEN | REPEAT_SEP_CAPTURE => true | _ => false end.

(** [m1 or m2], then [int(... .group(1))] *)
Definition reps_header (ln : string) : option N :=
  match rmatch REPS_RE ln with
  | Some m1 => Some (Py.int (group 1 m1))
  | None =>
      match rmatch REPEAT_FOLLOWING_RE ln with
      | Some m2 => Some (Py.int (group 1 m2))
      | None => None
      end
  end.

Definition process_fragments (frags : list string)
    (allow_group_change into_repeat : bool) (sm : SM) : SM :=
  fold_left
    (fun sm frag => _process_fragment frag allow_group_change into_repeat sm)
    frags sm.

(** One round of the loop of [translate] over [body_lines]. *)
Definition process_line (sm : SM) (raw : string) : SM :=
  let ln := clean_line raw in
  (* blank line ends repeat block *)
  if negb (nonempty (Py.strip raw)) && in_repeat (state sm) then
    set_state NORMAL (_close_repeat_group sm)
  else if negb (nonempty ln) && capturing (state sm) then
    set_state NORMAL (_close_repeat_group sm)
  else if negb (nonempty ln) || is_noise ln then sm
  (* separators govern repeat capture *)
  else if is_some (rmatch SEP_LINE_RE ln) then
    match state sm with
    | REPEAT_SEP_WAIT_OPEN => set_state REPEAT_SEP_CAPTURE sm
    | REPEAT_SEP_CAPTURE => set_state NORMAL (_close_repeat_group sm)
    | _ => sm
    end
  else
    (* repeat header detection (NORMAL only) *)
    match (match state sm with NORMAL => reps_header ln | _ => None end) with
    | Some reps => set_state REPEAT_SEP_WAIT_OPEN (_start_repeat_group reps sm)
    | None =>
        (* if waiting for separator but got content => repeat without separators *)
        let sm := match state sm with
                  | REPEAT_SEP_WAIT_OPEN => set_state REPEAT_OPEN sm
                  | _ => sm
                  end in
        if capturing (state sm)
        then process_fragments (split_on_commas ln) false true sm
        else process_fragments (split_on_commas ln) true false sm
    end.

(** The move both post-processing passes make once they have decided:
    pop the last step, drop the group if it is left empty, append a
    Cooldown group holding the step. *)
Definition move_to_cooldown (before : list Group) (last_group : Group)
    (init : list Step) (step : Step) : list Group :=
  (match init with
   | [] => before
   | _ => before ++ [mkGroup (title last_group) init]
   end) ++ [mkGroup "Cooldown" [step]].

Definition _postprocess_trailing_cooldown (sm : SM) : SM :=
  match unsnoc (groups sm) with
  | None => sm
  | Some (before, last_group) =>
      if negb (String.eqb (title last_group) "Main Set") then sm else
      match unsnoc (steps last_group) with
      | None => sm
      | Some (init, step) =>
          if negb (is_cooldown_step sm step) then sm
          else set_groups (move_to_cooldown before last_group init step) sm
      end
  end.

(** If the final step is conversational pace and not part of a repeat,
    move it into a dedicated Cooldown group.  (No caller in the source.) *)
Definition _postprocess_trailing_conversational_to_cooldown (sm : SM) : SM :=
  match unsnoc (groups sm) with
  | None => sm
  | Some (before, last_group) =>
      (* Only move from Main Set *)
      if negb (String.eqb (title last_group) "Main Set") then sm else
      match unsnoc (steps last_group) with
      | None => sm
      | Some (init, step) =>
          if negb (Py.contains "conversational" (Py.lower (text step))) then sm
          else set_groups (move_to_cooldown before last_group init step) sm
      end
  end.

(** The lines of the output: blank line between groups, no blank line
    between title and steps. *)
Fixpoint format_from (gi : nat) (gs : list Group) : list string :=
  match gs with
  | [] => []
  | g :: t =>
      (match gi with O => [] | S _ => [EmptyString] end)
        ++ title g :: map text (steps g) ++ format_from (S gi) t
  end.

Definition format_groups (gs : list Group) : list string := format_from 0 gs.

Definition NL : string := String Py.LF EmptyString.

(** The loop of [translate] over the body lines. *)
Definition run_body (sm : SM) (body_lines : list string) : SM :=
  fold_left process_line body_lines sm.

(** Close any open repeat at EOF, then flush the current group. *)
Definition finish_groups (sm : SM) : SM :=
  let sm := if in_repeat (state sm) then _close_repeat_group sm else sm in
  _flush_current sm.

(** Format the groups of [sm]; the default when there are none. *)
Definition format_result (sm : SM) : string * bool :=
  match format_groups (groups sm) with
  | [] => (DEFAULT_TEXT, true)
  | out => (Py.rstrip (Py.join NL out), partial sm)
  end.

(** The end of [translate]: post-processing and formatting. *)
Definition finish (sm : SM) : string * bool :=
  format_result (_postprocess_trailing_cooldown (finish_groups sm)).

(** The single-line workout: translate the title line. *)
Definition single_line (workout_name first_line : string) : string * bool :=
  let dist := parse_distance first_line in
  let ll := Py.lower first_line in
  match dist with
  | Some d =>
      if Py.contains "easy" ll || Py.contains "conversational" ll then
        ("Main Set" ++ NL ++ "- " ++ d ++ " " ++ single_line_easy_zone, false)
      else if Py.startswith (Py.lower workout_name) "easy run" then
        ("Main Set" ++ NL ++ "- " ++ d ++ " " ++ single_line_easy_zone, false)
      else (DEFAULT_TEXT, true)
  | None => (DEFAULT_TEXT, true)
  end.

Definition translate (sm : SM) : string * bool :=
  match Py.splitlines (full_description sm) with
  | [] => (DEFAULT_TEXT, true)
  | first_line :: body_lines =>
      (* First line is not converted into steps (title line) *)
      match body_lines with
      | [] => single_line (workout_name sm) first_line
      | _ => finish (run_body sm body_lines)
      end
  end.

Definition translate_workout_to_intervals_text
    (workout_name description : string) : string * bool :=
  translate (init workout_name description).

(* ================================================================== *)
(** * Views of a translation *)
(* ================================================================== *)

(** The body lines of a description: all lines but the title line. *)
Definition body_of (description : string) : list string :=
  tl (Py.splitlines description).

(** The machine when the loop over the body lines is over, the open repeat
    closed and the current group flushed: just before post-processing. *)
Definition before_postprocess (workout_name description : string) : SM :=
  finish_groups (run_body (init workout_name description) (body_of description)).

(** The machine whose groups are formatted. *)
Definition final_machine (workout_name description : string) : SM :=
  _postprocess_trailing_cooldown (before_postprocess workout_name description).

(** A group as the output shows it: its title and the texts of its steps. *)
Definition shown (g : Group) : string * list string :=
  (title g, map text (steps g)).


(** The branch of [_process_fragment] for a fragment no rule recognises. *)
Definition unknown_fragment (sm : SM) : SM :=
  _add_hills_fallback_if_needed (set_partial true sm).




(** The description of [test_repeat_without_separators]. *)
Definition HILLS_REPEAT_DESC : string :=
  Py.join NL
    [ ""; "Hills • 8km"; ""; "11 reps of:";
      "60s running hard uphill, 30s walking rest. Easy jog back down."; "" ].


(** The count a step text encodes before the unit [s] or [m], as the jog
    down reads it from the previous step. *)
Definition encoded_count (unit : ascii) (t : string) : option N :=
  option_map (fun m => Py.int (group 1 m)) (search (prev_count unit) t).

(** Twice the seconds of the previous step, else twice its minutes, else
    the default. *)
Definition doubled (prev : string) : string :=
  match encoded_count "s" prev, encoded_count "m" prev with
  | Some n, _ => Py.str (n * 2) ++ "s"
  | None, Some n => Py.str (n * 2) ++ "m"
  | None, None => "120s"
  end.

(** A machine in hills mode whose current group ends in a 60 s step. *)
Definition HILLS_MACHINE : SM :=
  emit "- 60s Z3-Z5 HR" false (init "Hills" "Hills 8km").

(** Every group the machine holds: the finished ones, the current one and
    the open repeat group. *)
Definition all_groups (sm : SM) : list Group :=
  (groups sm ++ [current sm])%list ++
  match repeat_group sm with Some rg => [rg] | None => [] end.

Definition is_cooldown_title (g : Group) : bool :=
  String.eqb (title g) "Cooldown".

(** In group [g], every step is an object older than [n], and outside a
    group titled "Cooldown" no step has its identity in [ids]. *)
Definition group_unflagged (ids : list nat) (n : nat) (g : Group) : Prop :=
  Forall (fun s =>
            step_id s < n /\
            (is_cooldown_title g = false ->
             existsb (Nat.eqb (step_id s)) ids = false))
         (steps g).

(** The identities in [cooldown_steps] are those of steps that sit in
    groups titled "Cooldown". *)
Definition flagged_in_cooldown (sm : SM) : Prop :=
  Forall (fun i => i < next_id sm) (cooldown_steps sm) /\
  Forall (group_unflagged (cooldown_steps sm) (next_id sm)) (all_groups sm).

(** The same fact, as a test on the finished groups. *)
Definition flagged_only_in_cooldown (sm : SM) : bool :=
  forallb (fun g =>
             forallb (fun s => implb (is_cooldown_step sm s) (is_cooldown_title g))
                     (steps g))
          (groups sm).

(** What the "cool down" rule does with the text [t] of its step. *)
Definition cool_down_step (t : string) (sm : SM) : SM :=
  let sm := _start_group "Cooldown" sm in
  let (step, sm) := new_str t sm in
  let sm := _add_step step false sm in
  set_cooldown_steps (step_id step :: cooldown_steps sm) sm.

(** The texts [_process_fragment] builds for a cleaned fragment [line]:
    [warm_text] for the "warm up" rule, [cool_text] for the "cool down" rule,
    [step_text] for the rules that add a step where the machine stands. *)
Definition warm_text (wn line : string) : string :=
  "- " ++ or_else (parse_distance line) "2m" ++ " ramp "
       ++ conversational_zone wn "warmup".

Definition cool_text (line : string) : string :=
  "- " ++ or_else (parse_distance line) "2m" ++ " ramp Z3-Z1 Pace".

Inductive step_text (wn line : string) (prev_steps : list Step)
    : string -> Prop :=
| text_walking_rest :
    step_text wn line prev_steps
      ("- " ++ or_else (parse_duration line) "90s" ++ " Z1 Pace")
| text_hard_uphill :
    step_text wn line prev_steps
      ("- " ++ or_else (parse_duration line) "2m" ++ " Z3-Z5 HR")
| text_jog_downhill :
    step_text wn line prev_steps
      ("- Press lap, Jog Downhill " ++ jog_duration prev_steps ++ " Z1-Z2 Pace")
| text_easy_distance : forall dist,
    parse_distance line = Some dist ->
    step_text wn line prev_steps ("- " ++ dist ++ " Z1-Z2 Pace")
| text_easy_duration :
    step_text wn line prev_steps
      ("- " ++ or_else (parse_duration line) "None" ++ " Z1-Z2 Pace")
| text_pace_range : forall dist rng,
    parse_distance line = Some dist ->
    search RANGE_RE line = Some rng ->
    step_text wn line prev_steps
      ("- " ++ dist ++ " " ++ group 1 rng ++ "/km PACE (" ++ group 1 rng
            ++ "-" ++ group 2 rng ++ "/km) Pace")
| text_pace : forall dist pace,
    parse_distance line = Some dist ->
    search PACE_RE line = Some pace ->
    step_text wn line prev_steps
      ("- " ++ dist ++ " " ++ group 1 pace ++ "/km Pace")
| text_conversational : forall dist,
    parse_distance line = Some dist ->
    step_text wn line prev_steps
      ("- " ++ dist ++ " " ++ conversational_zone wn "main")
| text_easy_run : forall dist,
    parse_distance line = Some dist ->
    step_text wn line prev_steps ("- " ++ dist ++ " " ++ single_line_easy_zone)
| text_duration : forall dur,
    parse_duration line = Some dur ->
    step_text wn line prev_steps ("- " ++ dur ++ " Z1-Z2 Pace").

(** The outcomes of [_process_fragment]. *)
Inductive fragment_outcome (frag : string) (into_repeat : bool) (sm : SM)
    : SM -> Prop :=
| outcome_skip : fragment_outcome frag into_repeat sm sm
| outcome_warm_up :
    fragment_outcome frag into_repeat sm
      (emit (warm_text (workout_name sm) (clean_line frag)) false
            (_start_group "Warmup" sm))
| outcome_cool_down :
    fragment_outcome frag into_repeat sm
      (cool_down_step (cool_text (clean_line frag)) sm)
| outcome_step : forall t,
    step_text (workout_name sm) (clean_line frag)
              (target_steps into_repeat sm) t ->
    fragment_outcome frag into_repeat sm (emit t into_repeat sm)
| outcome_unknown :
    fragment_outcome frag into_repeat sm (unknown_fragment sm).

(** A body line the loop of [translate] passes over in the NORMAL state:
    blank once cleaned, noise, or a separator. *)
Definition skipped_line (raw : string) : bool :=
  negb (nonempty (clean_line raw)) || is_noise (clean_line raw)
  || is_some (rmatch SEP_LINE_RE (clean_line raw)).

(** The outcomes of one round of the loop over the body lines, each with
    the state the machine was in. *)
Inductive line_outcome (raw : string) (sm : SM) : SM -> Prop :=
| line_skip : line_outcome raw sm sm
| line_close :
    in_repeat (state sm) = true ->
    line_outcome raw sm (set_state NORMAL (_close_repeat_group sm))
| line_open_capture :
    state sm = REPEAT_SEP_WAIT_OPEN ->
    line_outcome raw sm (set_state REPEAT_SEP_CAPTURE sm)
| line_header : forall reps,
    state sm = NORMAL ->
    skipped_line raw = false ->
    line_outcome raw sm
      (set_state REPEAT_SEP_WAIT_OPEN (_start_repeat_group reps sm))
| line_fragments_normal :
    state sm = NORMAL ->
    skipped_line raw = false ->
    line_outcome raw sm
      (process_fragments (split_on_commas (clean_line raw)) true false sm)
| line_fragments_repeat :
    capturing (state sm) = true ->
    line_outcome raw sm
      (process_fragments (split_on_commas (clean_line raw)) false true sm)
| line_fragments_first :
    state sm = REPEAT_SEP_WAIT_OPEN ->
    line_outcome raw sm
      (process_fragments (split_on_commas (clean_line raw)) false true
                         (set_state REPEAT_OPEN sm)).

(** A repeat group is open exactly in the three repeat states. *)
Definition repeat_open_in_repeat_states (sm : SM) : Prop :=
  in_repeat (state sm) = is_some (repeat_group sm).

(** All steps of a sequence of groups, in order. *)
Definition all_steps (gs : list Group) : list Step := flat_map steps gs.

(** [sm'] has the finished groups of [sm], unchanged and in place, followed
    by new ones that all hold a step. *)
Definition grows (sm sm' : SM) : Prop :=
  exists more,
    groups sm' = (groups sm ++ more)%list /\
    Forall (fun g => has_steps g = true) more.

(** [sm'] is in the state of [sm], with a repeat group open or not as [sm]. *)
Definition same_mode (sm sm' : SM) : Prop :=
  state sm' = state sm /\
  is_some (repeat_group sm') = is_some (repeat_group sm).


(** ** The grammar of the output text *)

(** [c in s] for a character. *)
Fixpoint has_char (c : ascii) (s : string) : bool :=
  match s with
  | EmptyString => false
  | String x t => Ascii.eqb x c || has_char c t
  end.

(** Every character of [s] occurs in [t]. *)
Definition chars_in (s t : string) : Prop :=
  forall c, has_char c s = true -> has_char c t = true.

(** A text of one line. *)
Definition no_lf (s : string) : Prop := has_char Py.LF s = false.

(** A text that is not empty and that [rstrip] leaves as it is. *)
Definition ends_ok (s : string) : Prop :=
  s <> EmptyString /\ Py.rstrip s = s.


(** A title line: "Warmup", "Cooldown", "Main Set" or "Main Set <N>x". *)
Definition group_title (t : string) : Prop :=
  t = "Warmup" \/ t = "Cooldown" \/ t = "Main Set" \/
  exists n : N, t = "Main Set " ++ Py.str n ++ "x".




(** The text of a step as the translator builds it: "- ", then a body of one
    line that does not end in a blank. *)
Definition good_text (t : string) : Prop :=
  exists body, t = "- " ++ body /\ no_lf body /\ ends_ok body.

(** A group of the machine with a title of the grammar and well-built
    steps. *)
Definition group_wf (g : Group) : Prop :=
  group_title (title g) /\ Forall (fun s => good_text (text s)) (steps g).

(** Every group the machine holds is well built. *)
Definition groups_wf (sm : SM) : Prop := Forall group_wf (all_groups sm).


(* ================================================================== *)
(** * Around the translator: log levels, dates, the feed, the payload *)
(* ================================================================== *)

(** A Python exception a modelled function can raise. *)
Inductive exn : Type := ValueError | OverflowError | KeyError.

(** The outcome of a call: a value, or an exception. *)
Inductive result (A : Type) : Type :=
| Ok (a : A)
| Raise (e : exn).
Arguments Ok {A} a.
Arguments Raise {A} e.

Definition bind {A B : Type} (r : result A) (k : A -> result B) : result B :=
  match r with
  | Ok a => k a
  | Raise e => Raise e
  end.

(** ** Log levels *)

Definition LOG_LEVELS : list (string * N) :=
  [ ("DEBUG", 10); ("INFO", 20); ("WARN", 30); ("ERROR", 40) ]%N.

(** [d.get(key)] on a dictionary kept as a list of pairs, first match. *)
Fixpoint lookup {V : Type} (key : string) (d : list (string * V)) : option V :=
  match d with
  | [] => None
  | (k, v) :: d' => if String.eqb k key then Some v else lookup key d'
  end.

(** [key in d] *)
Definition has_key {V : Type} (key : string) (d : list (string * V)) : bool :=
  is_some (lookup key d).

(** [d[key]]: [KeyError] when the key is missing. *)
Definition item {V : Type} (key : string) (d : list (string * V)) : result V :=
  match lookup key d with
  | Some v => Ok v
  | None => Raise KeyError
  end.

(** [x or default] for a string: the empty string counts as false. *)
Definition str_or (s dflt : string) : string :=
  match s with EmptyString => dflt | _ => s end.

Definition normalize_log_level (level : string) : string :=
  let lvl := Py.upper (Py.strip (str_or level "INFO")) in
  if has_key lvl LOG_LEVELS then lvl else "INFO".

Definition is_debug (level : string) : result bool :=
  bind (item (normalize_log_level level) LOG_LEVELS) (fun a =>
  bind (item "DEBUG" LOG_LEVELS) (fun b =>
  Ok (a <=? b)%N)).

(** ** Dates ([datetime.date]) *)

Record date : Type := mkDate { year : N; month : N; day : N }.

Definition is_leap (y : N) : bool :=
  ((y mod 4 =? 0) && (negb (y mod 100 =? 0) || (y mod 400 =? 0)))%N.

Definition days_in_month (y m : N) : N :=
  match m with
  | 1 | 3 | 5 | 7 | 8 | 10 | 12 => 31
  | 4 | 6 | 9 | 11 => 30
  | 2 => if is_leap y then 29 else 28
  | _ => 0
  end%N.

Definition valid_date (d : date) : bool :=
  ((1 <=? year d) && (year d <=? 9999) && (1 <=? month d) && (month d <=? 12)
   && (1 <=? day d) && (day d <=? days_in_month (year d) (month d)))%N.

(** [dt.date(y, m, d)]: [ValueError] outside the calendar. *)
Definition date_new (y m d : N) : result date :=
  if valid_date (mkDate y m d) then Ok (mkDate y m d) else Raise ValueError.

(** [a < b] and [a <= b] on dates. *)
Definition date_ltb (a b : date) : bool :=
  ((year a <? year b)
   || ((year a =? year b)
       && ((month a <? month b)
           || ((month a =? month b) && (day a <? day b)))))%N.

Definition date_eqb (a b : date) : bool :=
  ((year a =? year b) && (month a =? month b) && (day a =? day b))%N.

Definition date_leb (a b : date) : bool := date_ltb a b || date_eqb a b.

(** [d + timedelta(days=1)]: [OverflowError] after 9999-12-31. *)
Definition next_day (d : date) : result date :=
  if (day d <? days_in_month (year d) (month d))%N
  then Ok (mkDate (year d) (month d) (day d + 1))
  else if (month d <? 12)%N then Ok (mkDate (year d) (month d + 1) 1)
  else if (year d <? 9999)%N then Ok (mkDate (year d + 1) 1 1)
  else Raise OverflowError.

(** [d + timedelta(days=k)] for a [k] that is not negative. *)
Fixpoint add_days (d : date) (k : nat) : result date :=
  match k with
  | O => Ok d
  | S k' => bind (next_day d) (fun d' => add_days d' k')
  end.

(** [d.isoformat()] *)
Definition isoformat (d : date) : string :=
  Py.zfill 4 (year d) ++ "-" ++ Py.zfill 2 (month d) ++ "-"
    ++ Py.zfill 2 (day d).

(** ** ICS parsing *)

Record IcsEvent : Type := mkIcsEvent {
  uid : string;
  summary : string;
  description : string;
  dtstart_date : date
}.

(** [ln.startswith((" ", "\t"))] *)
Definition is_continuation (ln : string) : bool :=
  Py.startswith ln " " || Py.startswith ln (String "009"%char EmptyString).

Definition CRLF_CHARS : string :=
  String "013"%char (String "010"%char EmptyString).

(** [out[-1] += more] *)
Fixpoint append_to_last (out : list string) (more : string) : list string :=
  match out with
  | [] => []
  | [x] => [x ++ more]
  | x :: t => x :: append_to_last t more
  end.

Definition unfold_step (out : list string) (ln : string) : list string :=
  match out with
  | _ :: _ =>
      if is_continuation ln then append_to_last out (Py.drop 1 ln)
      else (out ++ [Py.rstrip_chars CRLF_CHARS ln])%list
  | [] => [Py.rstrip_chars CRLF_CHARS ln]
  end.

Definition unfold_ics_lines (text : string) : list string :=
  fold_left unfold_step (Py.splitlines text) [].

Definition BACKSLASH : string := String "092"%char EmptyString.

Definition ics_unescape (s : string) : string :=
  let s := Py.replace (BACKSLASH ++ "n") NL s in
  let s := Py.replace (BACKSLASH ++ ",") "," s in
  let s := Py.replace (BACKSLASH ++ ";") ";" s in
  let s := Py.replace (BACKSLASH ++ ":") ":" s in
  Py.replace (BACKSLASH ++ BACKSLASH) BACKSLASH s.

(** DTSTART;VALUE=DATE:YYYYMMDD (or DTSTART:YYYYMMDD).  [isdigit] is the
    ASCII one of the text model: the digits of other scripts, which Python
    also accepts, are outside it. *)
Definition parse_dtstart_date (raw_value : string) : result (option date) :=
  let v := Py.strip raw_value in
  if (8 <=? String.length v)%nat && Py.str_isdigit (Py.take 8 v) then
    bind (date_new (Py.int (Py.slice 0 4 v)) (Py.int (Py.slice 4 6 v))
                   (Py.int (Py.slice 6 8 v)))
         (fun d => Ok (Some d))
  else Ok None.

(** The loop state of [parse_ics_events]. *)
Record IcsParser : Type := mkIcsParser {
  events : list IcsEvent;
  cur : list (string * string);
  in_event : bool
}.

(** [cur.get(key, "")] *)
Definition get_or_empty (key : string) (d : list (string * string)) : string :=
  match lookup key d with Some v => v | None => EmptyString end.

(** [cur[key] = v]: the new binding is found first. *)
Definition set_item (key v : string) (d : list (string * string))
    : list (string * string) :=
  (key, v) :: d.

Definition ics_end_event (st : IcsParser) : result IcsParser :=
  if in_event st then
    let uid := Py.strip (get_or_empty "UID" (cur st)) in
    let summary := Py.strip (ics_unescape (get_or_empty "SUMMARY" (cur st))) in
    let desc := Py.strip (ics_unescape (get_or_empty "DESCRIPTION" (cur st))) in
    bind (parse_dtstart_date (get_or_empty "DTSTART" (cur st))) (fun dtstart =>
    match dtstart with
    | Some d =>
        if nonempty uid
        then Ok (mkIcsParser (events st ++ [mkIcsEvent uid summary desc d])
                             (cur st) false)
        else Ok (mkIcsParser (events st) (cur st) false)
    | None => Ok (mkIcsParser (events st) (cur st) false)
    end)
  else Ok (mkIcsParser (events st) (cur st) false).

Definition ics_line (st : IcsParser) (line : string) : result IcsParser :=
  if String.eqb line "BEGIN:VEVENT" then Ok (mkIcsParser (events st) [] true)
  else if String.eqb line "END:VEVENT" then ics_end_event st
  else if negb (in_event st) || negb (has_char ":" line) then Ok st
  else
    let (k, v) := Py.split_once ":" line in
    let key := Py.strip (fst (Py.split_once ";" k)) in
    Ok (mkIcsParser (events st)
                    (set_item key (match v with Some x => x | None => EmptyString end)
                              (cur st))
                    (in_event st)).

Fixpoint ics_lines (st : IcsParser) (lines : list string) : result IcsParser :=
  match lines with
  | [] => Ok st
  | l :: ls => bind (ics_line st l) (fun st' => ics_lines st' ls)
  end.

Definition parse_ics_events (text : string) : result (list IcsEvent) :=
  bind (ics_lines (mkIcsParser [] [] false) (unfold_ics_lines text))
       (fun st => Ok (events st)).

(** ** Selection logic.  [today] is what [aus_today()] returns; the log
    lines the functions print are not part of the model. *)

Definition start_date_local (ev : IcsEvent) : string :=
  isoformat (dtstart_date ev) ++ "T07:00:00".

Definition select_events (today : date) (evs : list IcsEvent)
    (include_today all_workouts next_week : bool) : result (list IcsEvent) :=
  let selected :=
    if all_workouts then evs
    else if include_today
         then filter (fun e => date_leb today (dtstart_date e)) evs
         else filter (fun e => date_ltb today (dtstart_date e)) evs in
  if next_week then
    bind (if include_today then Ok today else add_days today 1) (fun start =>
    bind (add_days start 7) (fun stop =>
    Ok (filter (fun e => date_leb start (dtstart_date e)
                         && date_ltb (dtstart_date e) stop) selected)))
  else Ok selected.

Definition hard_guard_drop_past (today : date) (selected : list IcsEvent)
    (include_today : bool) : list IcsEvent :=
  if include_today
  then filter (fun e => date_leb today (dtstart_date e)) selected
  else filter (fun e => date_ltb today (dtstart_date e)) selected.

(** ** Build Intervals payload *)

Record Payload : Type := mkPayload {
  p_start_date_local : string;
  p_name : string;
  p_category : string;
  p_type : string;
  p_folder_id : Z;
  p_external_id : string;
  p_tags : list string;
  p_description : string
}.




(** One entry of "partial_examples". *)
Record PartialExample : Type := mkPartialExample {
  x_start_date_local : string;
  x_uid : string;
  x_name : string
}.

Record Report : Type := mkReport {
  r_total : Z;
  r_ok : Z;
  r_partial : Z;
  r_partial_examples : option (list PartialExample)
}.

Definition is_partial_result (r : IcsEvent * bool * Payload) : bool :=
  snd (fst r).

(** The payloads of [results] are those of [build_intervals_event], which
    always have a "name". *)
Definition make_validation_report
    (results : list (IcsEvent * bool * Payload)) (log_level : string)
    : result Report :=
  let lvl := normalize_log_level log_level in
  let total := Z.of_nat (List.length results) in
  let partials := filter is_partial_result results in
  let ok := (total - Z.of_nat (List.length partials))%Z in
  bind (is_debug lvl) (fun dbg =>
  Ok (mkReport total ok (Z.of_nat (List.length partials))
        (if dbg
         then Some (map (fun r => mkPartialExample
                                    (start_date_local (fst (fst r)))
                                    (uid (fst (fst r)))
                                    (p_name (snd r)))
                        (firstn 10 partials))
         else None))).

(** ** Sync runner: the selection of [run_sync], [select_events] followed
    by [hard_guard_drop_past].  [today1] and [today2] are what [aus_today()] returns
    in [select_events] and, later, in [hard_guard_drop_past]. *)

Definition select_and_guard (today1 today2 : date) (evs : list IcsEvent)
    (include_today all_workouts next_week : bool) : result (list IcsEvent) :=
  bind (select_events today1 evs include_today all_workouts next_week)
       (fun selected => Ok (hard_guard_drop_past today2 selected include_today)).

(** ** Views for the code around the translator *)

(** The test of [hard_guard_drop_past], and of [select_events] without
    "all workouts": the event is not before [today]; with [include_today]
    false it is after it. *)
Definition not_past (today : date) (include_today : bool) (e : IcsEvent)
    : bool :=
  if include_today then date_leb today (dtstart_date e)
  else date_ltb today (dtstart_date e).


(** An event as [parse_ics_events] keeps them: a UID that is not empty,
    texts without blanks around them, a date of the calendar. *)
Definition event_ok (e : IcsEvent) : Prop :=
  uid e <> EmptyString /\ Py.strip (uid e) = uid e /\
  Py.strip (summary e) = summary e /\
  Py.strip (description e) = description e /\
  valid_date (dtstart_date e) = true.

Definition END_VEVENT : string := "END:VEVENT".

(** The number of "END:VEVENT" lines. *)
Definition count_ends (lines : list string) : nat :=
  List.length (filter (String.eqb END_VEVENT) lines).

(** A text without a line boundary. *)
Definition no_break (s : string) : Prop :=
  forall c, has_char c s = true -> Py.islinebreak c = false.

(** What [unfold_ics_lines] keeps of a line after the first: a
    continuation line loses its first character. *)
Definition unfolded (ln : string) : string :=
  if is_continuation ln then Py.drop 1 ln else ln.

(** A line after the first that starts a new unfolded line. *)
Definition starts_line (ln : string) : bool := negb (is_continuation ln).

(* ================================================================== *)
(** * Properties *)
(* ================================================================== *)

(** ** The fixed default and the single-line workout *)

(** C4: for every title, the empty description translates to the two lines
    "Main Set" and "- 60m Z1-Z2 Pace", with partial = true. *)
Theorem translate_empty_description :
  forall title : string,
    translate_workout_to_intervals_text title "" =
      ("Main Set" ++ NL ++ "- 60m Z1-Z2 Pace", true).
Proof.
  intros title. reflexivity.
Qed.






(** ** Repeat blocks on the inputs of the repository's tests *)

(** C1 (what the code does at the input of [test_repeat_without_separators]):
    the description is in hills mode; the repeat group "Main Set 11x" holds
    two steps, "- run uphill 60s Z3-Z5 HR" and "- 30s Z1 Pace"; the fragment
    "30s walking rest. Easy jog back down" is taken by the walking-rest rule,
    and no step of the output contains "Jog Downhill". *)
Theorem hills_repeat_has_no_jog_downhill :
  is_hills_by_text HILLS_REPEAT_DESC = true /\
  split_on_commas
    (clean_line "60s running hard uphill, 30s walking rest. Easy jog back down.")
    = ["60s running hard uphill"; "30s walking rest. Easy jog back down"] /\
  map shown (groups (final_machine "Hills • 8km" HILLS_REPEAT_DESC)) =
    [ ("Main Set", ["- 8km Z1-Z2 Pace"]);
      ("Main Set 11x", ["- run uphill 60s Z3-Z5 HR"; "- 30s Z1 Pace"]) ] /\
  translate_workout_to_intervals_text "Hills • 8km" HILLS_REPEAT_DESC =
    (Py.join NL [ "Main Set"; "- 8km Z1-Z2 Pace"; "";
                  "Main Set 11x"; "- run uphill 60s Z3-Z5 HR"; "- 30s Z1 Pace" ],
     false) /\
  Py.contains "Jog Downhill"
    (fst (translate_workout_to_intervals_text "Hills • 8km" HILLS_REPEAT_DESC))
    = false.
Proof.
  repeat split; vm_compute; reflexivity.
Qed.


(** ** Reading the machine after a step *)

Lemma unsnoc_app : forall (A : Type) (l : list A) (x : A),
    unsnoc (l ++ [x]) = Some (l, x).
Proof.
  intros A l x. induction l as [|y l IH]; cbn.
  - reflexivity.
  - rewrite IH. reflexivity.
Qed.

Lemma unsnoc_none : forall (A : Type) (l : list A),
    unsnoc l = None -> l = [].
Proof.
  intros A [|y l]; cbn; [reflexivity|].
  destruct (unsnoc l) as [[i z]|]; discriminate.
Qed.

Lemma unsnoc_some : forall (A : Type) (l i : list A) (x : A),
    unsnoc l = Some (i, x) -> l = (i ++ [x])%list.
Proof.
  intros A l. induction l as [|y l IH]; cbn; intros i x H.
  - discriminate.
  - destruct (unsnoc l) as [[i' z]|] eqn:E.
    + inversion H; subst. rewrite (IH i' x eq_refl). reflexivity.
    + inversion H; subst. apply unsnoc_none in E. subst. reflexivity.
Qed.

(** ** The jog down of hills mode *)





Example jog_after_seconds :
  map text (steps (current
    (_process_fragment "Easy jog back down." true false HILLS_MACHINE))) =
  [ "- 60s Z3-Z5 HR"; "- Press lap, Jog Downhill 120s Z1-Z2 Pace" ].
Proof. vm_compute. reflexivity. Qed.

Example doubled_examples :
  doubled "- 30s Z1 Pace" = "60s" /\
  doubled "- 2m Z1-Z2 Pace" = "4m" /\
  doubled "- 0.4km 4:55/km Pace" = "120s" /\
  doubled "- Press lap, Jog Downhill 120s Z1-Z2 Pace" = "240s".
Proof. repeat split; vm_compute; reflexivity. Qed.

(** ** The partial flag *)

Lemma partial_add_step : forall step ir sm,
    partial (_add_step step ir sm) = partial sm.
Proof.
  intros step ir sm. unfold _add_step.
  destruct ir; [|reflexivity].
  destruct (repeat_group sm); [|reflexivity].
  destruct (hills_mode sm && repeat_first_step_pending sm); [|reflexivity].
  destruct (Py.startswith (text step) "- "); reflexivity.
Qed.

Lemma partial_emit : forall t ir sm, partial (emit t ir sm) = partial sm.
Proof.
  intros t ir sm. unfold emit. cbn [new_str]. rewrite partial_add_step.
  reflexivity.
Qed.

Lemma partial_flush_current : forall sm,
    partial (_flush_current sm) = partial sm.
Proof.
  intros sm. unfold _flush_current. destruct (has_steps (current sm)); reflexivity.
Qed.

Lemma partial_start_group : forall t sm,
    partial (_start_group t sm) = partial sm.
Proof.
  intros t sm. unfold _start_group. cbn [partial set_current].
  apply partial_flush_current.
Qed.

Lemma partial_start_repeat_group : forall n sm,
    partial (_start_repeat_group n sm) = partial sm.
Proof.
  intros n sm. unfold _start_repeat_group.
  cbn [partial set_repeat_first_step_pending set_repeat_group].
  apply partial_flush_current.
Qed.

Lemma partial_close_repeat_group : forall sm,
    partial (_close_repeat_group sm) = partial sm.
Proof.
  intros sm. unfold _close_repeat_group.
  cbn [partial set_repeat_first_step_pending set_repeat_group].
  destruct (repeat_group sm) as [rg|]; [|reflexivity].
  destruct (has_steps rg); reflexivity.
Qed.

Lemma partial_unknown_fragment : forall sm,
    partial (unknown_fragment sm) = true.
Proof.
  intros sm. unfold unknown_fragment, _add_hills_fallback_if_needed.
  destruct (hills_mode (set_partial true sm)
            && negb (hills_fallback_added (set_partial true sm))); reflexivity.
Qed.

(** ** The outcomes of a fragment and of a line *)

Lemma process_fragment_outcome : forall frag agc ir sm,
    fragment_outcome frag ir sm (_process_fragment frag agc ir sm).
Proof.
  intros frag agc ir sm. unfold _process_fragment. cbv zeta.
  destruct (negb (nonempty (clean_line frag)) || is_noise (clean_line frag)
            || is_some (rmatch SEP_LINE_RE (clean_line frag)));
    [constructor|].
  destruct (Py.contains FAST_BURSTS_HINT (Py.lower (clean_line frag)));
    [constructor|].
  destruct (agc && Py.contains "warm up" (Py.lower (clean_line frag)));
    [apply outcome_warm_up|].
  destruct (agc && Py.contains "cool down" (Py.lower (clean_line frag)));
    [apply outcome_cool_down|].
  destruct (Py.contains "walking rest" (Py.lower (clean_line frag)));
    [apply outcome_step; constructor|].
  destruct (hills_mode sm && _); [apply outcome_step; constructor|].
  destruct (hills_mode sm && _); [apply outcome_step; constructor|].
  destruct (parse_distance (clean_line frag)) as [dist|] eqn:Ed.
  - destruct ((_ || _) && _).
    + apply outcome_step. apply text_easy_distance. exact Ed.
    + destruct (search RANGE_RE (clean_line frag)) as [rng|] eqn:Er.
      * apply outcome_step. eapply text_pace_range; eauto.
      * destruct (search PACE_RE (clean_line frag)) as [pace|] eqn:Ep.
        -- apply outcome_step. eapply text_pace; eauto.
        -- destruct (Py.contains "conversational" _).
           ++ apply outcome_step. apply text_conversational. exact Ed.
           ++ destruct (_ || _).
              ** apply outcome_step. apply text_easy_run. exact Ed.
              ** apply outcome_step. apply text_easy_distance. exact Ed.
  - destruct ((_ || _) && _).
    + apply outcome_step. apply text_easy_duration.
    + destruct (search RANGE_RE (clean_line frag));
        destruct (search PACE_RE (clean_line frag));
        (destruct (parse_duration (clean_line frag)) as [dur|] eqn:Eu;
         [apply outcome_step; apply text_duration; exact Eu
         |apply outcome_unknown]).
Qed.

Lemma process_line_outcome : forall sm raw,
    line_outcome raw sm (process_line sm raw).
Proof.
  intros sm raw. unfold process_line. cbv zeta.
  destruct (negb (nonempty (Py.strip raw))); cbn [andb].
  - destruct (in_repeat (state sm)) eqn:Ei; [apply line_close; exact Ei|].
    destruct (state sm) eqn:Es; try discriminate. cbn [capturing andb].
    rewrite andb_false_r.
    destruct (negb (nonempty (clean_line raw)) || is_noise (clean_line raw))
      eqn:E3; [apply line_skip|].
    destruct (is_some (rmatch SEP_LINE_RE (clean_line raw))) eqn:E4;
      [apply line_skip|].
    assert (Hk : skipped_line raw = false)
      by (unfold skipped_line; rewrite E3, E4; reflexivity).
    destruct (reps_header (clean_line raw)) as [reps|].
    + apply line_header; [exact Es | exact Hk].
    + rewrite Es. cbn [capturing].
      apply line_fragments_normal; [exact Es | exact Hk].
  - destruct (negb (nonempty (clean_line raw)) && capturing (state sm)) eqn:E2.
    { apply line_close. apply andb_true_iff in E2. destruct E2 as [_ E2].
      destruct (state sm); try discriminate; reflexivity. }
    destruct (negb (nonempty (clean_line raw)) || is_noise (clean_line raw))
      eqn:E3; [apply line_skip|].
    destruct (is_some (rmatch SEP_LINE_RE (clean_line raw))) eqn:E4.
    + destruct (state sm) eqn:Es; try apply line_skip.
      * apply line_open_capture. exact Es.
      * apply line_close. rewrite Es. reflexivity.
    + assert (Hk : skipped_line raw = false)
        by (unfold skipped_line; rewrite E3, E4; reflexivity).
      destruct (state sm) eqn:Es.
      * destruct (reps_header (clean_line raw)) as [reps|].
        -- apply line_header; [exact Es | exact Hk].
        -- rewrite Es. cbn [capturing].
           apply line_fragments_normal; [exact Es | exact Hk].
      * rewrite Es. cbn [capturing]. apply line_fragments_repeat.
        rewrite Es. reflexivity.
      * cbn [state set_state capturing]. apply line_fragments_first. exact Es.
      * rewrite Es. cbn [capturing]. apply line_fragments_repeat.
        rewrite Es. reflexivity.
Qed.

(** ** The partial flag, continued *)

Lemma partial_cool_down_step : forall t sm,
    partial (cool_down_step t sm) = partial sm.
Proof.
  intros t sm. unfold cool_down_step. cbv zeta.
  cbn [new_str partial set_cooldown_steps].
  rewrite partial_add_step. cbn [partial set_next_id].
  apply partial_start_group.
Qed.

(** A fragment leaves the flag alone unless it is unrecognised. *)
Lemma partial_process_fragment : forall frag agc ir sm,
    partial (_process_fragment frag agc ir sm) = partial sm \/
    _process_fragment frag agc ir sm = unknown_fragment sm.
Proof.
  intros frag agc ir sm.
  destruct (process_fragment_outcome frag agc ir sm).
  - left; reflexivity.
  - left. rewrite partial_emit. apply partial_start_group.
  - left. apply partial_cool_down_step.
  - left. apply partial_emit.
  - right; reflexivity.
Qed.

Lemma le_bool_trans : forall a b c, Bool.le a b -> Bool.le b c -> Bool.le a c.
Proof. intros [] [] []; cbn; auto; discriminate. Qed.

Lemma le_bool_refl : forall a, Bool.le a a.
Proof. intros []; cbn; auto. Qed.

Lemma le_bool_eq : forall a b, b = a -> Bool.le a b.
Proof. intros a b E. subst. apply le_bool_refl. Qed.

Lemma le_partial_process_fragment : forall frag agc ir sm,
    Bool.le (partial sm) (partial (_process_fragment frag agc ir sm)).
Proof.
  intros frag agc ir sm.
  destruct (partial_process_fragment frag agc ir sm) as [E|E].
  - apply le_bool_eq. exact E.
  - rewrite E, partial_unknown_fragment. destruct (partial sm); cbn; auto.
Qed.

Lemma fold_left_cons : forall (A B : Type) (F : A -> B -> A) (x : B)
    (l : list B) (a : A),
    fold_left F (x :: l) a = fold_left F l (F a x).
Proof. reflexivity. Qed.

Lemma process_fragments_cons : forall f frags agc ir sm,
    process_fragments (f :: frags) agc ir sm =
    process_fragments frags agc ir (_process_fragment f agc ir sm).
Proof.
  intros f frags agc ir sm.
  exact (fold_left_cons SM string
           (fun sm frag => _process_fragment frag agc ir sm) f frags sm).
Qed.

Lemma run_body_cons : forall l lines sm,
    run_body sm (l :: lines) = run_body (process_line sm l) lines.
Proof.
  intros l lines sm.
  exact (fold_left_cons SM string process_line l lines sm).
Qed.

Lemma le_partial_process_fragments : forall frags agc ir sm,
    Bool.le (partial sm) (partial (process_fragments frags agc ir sm)).
Proof.
  intros frags agc ir.
  induction frags as [|f frags IH]; intros sm.
  - apply le_bool_refl.
  - rewrite process_fragments_cons.
    apply le_bool_trans with (partial (_process_fragment f agc ir sm)).
    + apply le_partial_process_fragment.
    + apply IH.
Qed.

Lemma le_partial_process_line : forall sm raw,
    Bool.le (partial sm) (partial (process_line sm raw)).
Proof.
  intros sm raw.
  destruct (process_line_outcome sm raw).
  - apply le_bool_refl.
  - apply le_bool_eq. cbn [partial set_state]. apply partial_close_repeat_group.
  - apply le_bool_refl.
  - apply le_bool_eq. cbn [partial set_state]. apply partial_start_repeat_group.
  - apply le_partial_process_fragments.
  - apply le_partial_process_fragments.
  - exact (le_partial_process_fragments _ false true (set_state REPEAT_OPEN sm)).
Qed.

Lemma le_partial_run_body : forall lines sm,
    Bool.le (partial sm) (partial (run_body sm lines)).
Proof.
  induction lines as [|l lines IH]; intros sm.
  - apply le_bool_refl.
  - rewrite run_body_cons.
    apply le_bool_trans with (partial (process_line sm l)).
    + apply le_partial_process_line.
    + apply IH.
Qed.

Lemma partial_finish_groups : forall sm,
    partial (finish_groups sm) = partial sm.
Proof.
  intros sm. unfold finish_groups.
  rewrite partial_flush_current.
  destruct (in_repeat (state sm)); [apply partial_close_repeat_group | reflexivity].
Qed.

Lemma partial_postprocess_trailing_cooldown : forall sm,
    partial (_postprocess_trailing_cooldown sm) = partial sm.
Proof.
  intros sm. unfold _postprocess_trailing_cooldown.
  destruct (unsnoc (groups sm)) as [[before lg]|]; [|reflexivity].
  destruct (negb (String.eqb (title lg) "Main Set")); [reflexivity|].
  destruct (unsnoc (steps lg)) as [[i st]|]; [|reflexivity].
  destruct (negb (is_cooldown_step sm st)); reflexivity.
Qed.

(** C8: the partial flag is monotonic.  It starts false; a fragment leaves
    it as it is unless the fragment is unrecognised, and only then is it set;
    a line, the whole loop over the body lines, the closing of the groups
    and the post-processing never take it from true to false. *)
Theorem partial_flag_monotonic :
  forall (name description frag raw : string) (lines : list string)
         (allow_group_change into_repeat : bool) (sm : SM),
    partial (init name description) = false /\
    (partial (_process_fragment frag allow_group_change into_repeat sm)
       = partial sm
     \/ (_process_fragment frag allow_group_change into_repeat sm
           = unknown_fragment sm
         /\ partial (unknown_fragment sm) = true)) /\
    Bool.le (partial sm)
            (partial (_process_fragment frag allow_group_change into_repeat sm)) /\
    Bool.le (partial sm) (partial (process_line sm raw)) /\
    Bool.le (partial sm) (partial (run_body sm lines)) /\
    partial (finish_groups sm) = partial sm /\
    partial (_postprocess_trailing_cooldown sm) = partial sm /\
    Bool.le (partial sm)
            (partial (_postprocess_trailing_cooldown
                        (finish_groups (run_body sm lines)))).
Proof.
  intros name description frag raw lines agc ir sm.
  split; [reflexivity|].
  split.
  { destruct (partial_process_fragment frag agc ir sm) as [E|E]; [left; exact E|].
    right. split; [exact E | apply partial_unknown_fragment]. }
  split; [apply le_partial_process_fragment|].
  split; [apply le_partial_process_line|].
  split; [apply le_partial_run_body|].
  split; [apply partial_finish_groups|].
  split; [apply partial_postprocess_trailing_cooldown|].
  rewrite partial_postprocess_trailing_cooldown, partial_finish_groups.
  apply le_partial_run_body.
Qed.

(** ** The flagged cool-down step stays in its Cooldown group *)

Lemma group_unflagged_weaken : forall ids n n' g,
    n <= n' -> group_unflagged ids n g -> group_unflagged ids n' g.
Proof.
  intros ids n n' g Hle H. unfold group_unflagged in *.
  eapply Forall_impl; [|exact H].
  intros s [Hlt Hf]. split; [lia | exact Hf].
Qed.

Lemma group_unflagged_flag : forall ids n g i,
    n <= i -> group_unflagged ids n g -> group_unflagged (i :: ids) n g.
Proof.
  intros ids n g i Hle H. unfold group_unflagged in *.
  eapply Forall_impl; [|exact H].
  intros s [Hlt Hf]. split; [exact Hlt|].
  intros Ht. cbn [existsb]. rewrite (Hf Ht).
  destruct (Nat.eqb_spec (step_id s) i); [lia | reflexivity].
Qed.

Lemma group_unflagged_empty : forall ids n t,
    group_unflagged ids n (mkGroup t []).
Proof. intros. constructor. Qed.

Lemma fresh_not_flagged : forall ids n i,
    Forall (fun j => j < n) ids -> n <= i ->
    existsb (Nat.eqb i) ids = false.
Proof.
  intros ids n i H Hle. induction H as [|j ids Hj _ IH]; cbn.
  - reflexivity.
  - rewrite IH. destruct (Nat.eqb_spec i j); [lia | reflexivity].
Qed.

Lemma group_unflagged_append : forall ids n g i t,
    Forall (fun j => j < n) ids -> n <= i ->
    group_unflagged ids n g ->
    group_unflagged ids (S i) (append_step g (mkStep i t)).
Proof.
  intros ids n g i t Hids Hle H. unfold group_unflagged, append_step in *.
  cbn [steps title]. apply Forall_app. split.
  - eapply Forall_impl; [|exact H]. intros s [Hlt Hf]. split; [cbn; lia | exact Hf].
  - constructor; [|constructor]. cbn [step_id]. split; [lia|].
    intros _. eapply fresh_not_flagged; eauto.
Qed.

Lemma all_groups_spec : forall sm P,
    Forall P (all_groups sm) <->
    Forall P (groups sm) /\ P (current sm) /\
    (forall rg, repeat_group sm = Some rg -> P rg).
Proof.
  intros sm P. unfold all_groups. rewrite !Forall_app. split.
  - intros [[Hg Hc] Hr]. split; [exact Hg|]. split.
    + inversion Hc; assumption.
    + intros rg E. rewrite E in Hr. inversion Hr; assumption.
  - intros [Hg [Hc Hr]]. split; [split|].
    + exact Hg.
    + constructor; [exact Hc | constructor].
    + destruct (repeat_group sm) as [rg|]; [|constructor].
      constructor; [apply Hr; reflexivity | constructor].
Qed.

Lemma flagged_init : forall name description,
    flagged_in_cooldown (init name description).
Proof.
  intros. split; [constructor|].
  apply all_groups_spec. cbn. split; [constructor|]. split.
  - apply group_unflagged_empty.
  - intros rg E. discriminate.
Qed.

Lemma flagged_flush_current : forall sm,
    flagged_in_cooldown sm -> flagged_in_cooldown (_flush_current sm).
Proof.
  intros sm [Hids H]. apply all_groups_spec in H. destruct H as [Hg [Hc Hr]].
  unfold _flush_current.
  destruct (has_steps (current sm)); (split; [exact Hids|]);
    apply all_groups_spec; cbn; (split; [|split]);
    try apply group_unflagged_empty; try exact Hr; try exact Hg.
  apply Forall_app. split; [exact Hg | constructor; [exact Hc | constructor]].
Qed.

Lemma flagged_start_group : forall t sm,
    flagged_in_cooldown sm -> flagged_in_cooldown (_start_group t sm).
Proof.
  intros t sm H. apply flagged_flush_current in H.
  destruct H as [Hids H]. apply all_groups_spec in H. destruct H as [Hg [Hc Hr]].
  unfold _start_group. split; [exact Hids|].
  apply all_groups_spec. cbn. split; [exact Hg|]. split.
  - apply group_unflagged_empty.
  - exact Hr.
Qed.

Lemma flagged_start_repeat_group : forall n sm,
    flagged_in_cooldown sm -> flagged_in_cooldown (_start_repeat_group n sm).
Proof.
  intros n sm H. apply flagged_flush_current in H.
  destruct H as [Hids H]. apply all_groups_spec in H. destruct H as [Hg [Hc Hr]].
  unfold _start_repeat_group. split; [exact Hids|].
  apply all_groups_spec. cbn. split; [exact Hg|]. split; [exact Hc|].
  intros rg E. inversion E. apply group_unflagged_empty.
Qed.

Lemma flagged_close_repeat_group : forall sm,
    flagged_in_cooldown sm -> flagged_in_cooldown (_close_repeat_group sm).
Proof.
  intros sm [Hids H]. apply all_groups_spec in H. destruct H as [Hg [Hc Hr]].
  unfold _close_repeat_group.
  destruct (repeat_group sm) as [rg|] eqn:E.
  - destruct (has_steps rg); (split; [exact Hids|]);
      apply all_groups_spec; cbn; (split; [|split]);
      try exact Hc; try exact Hg; try (intros ? ?; discriminate).
    apply Forall_app. split; [exact Hg|].
    constructor; [apply Hr; reflexivity | constructor].
  - split; [exact Hids|]. apply all_groups_spec; cbn.
    split; [exact Hg|]. split; [exact Hc|]. intros ? ?; discriminate.
Qed.

Lemma flagged_set_state : forall v sm,
    flagged_in_cooldown sm -> flagged_in_cooldown (set_state v sm).
Proof. intros v sm H. exact H. Qed.

Lemma flagged_set_partial : forall v sm,
    flagged_in_cooldown sm -> flagged_in_cooldown (set_partial v sm).
Proof. intros v sm H. exact H. Qed.

(** A new step appended to the current group. *)
Lemma flagged_append_current : forall t sm,
    flagged_in_cooldown sm ->
    flagged_in_cooldown
      (set_current (append_step (current sm) (mkStep (next_id sm) t))
                   (set_next_id (S (next_id sm)) sm)).
Proof.
  intros t sm [Hids H]. apply all_groups_spec in H. destruct H as [Hg [Hc Hr]].
  split.
  - cbn. eapply Forall_impl; [|exact Hids]. cbn. intros; lia.
  - apply all_groups_spec; cbn. split; [|split].
    + eapply Forall_impl; [|exact Hg].
      intros g. apply group_unflagged_weaken. lia.
    + eapply group_unflagged_append; eauto.
    + intros rg E. eapply group_unflagged_weaken; [|apply Hr; exact E]. lia.
Qed.

(** A new step appended to the open repeat group. *)
Lemma flagged_append_repeat : forall t rg sm k,
    flagged_in_cooldown sm ->
    repeat_group sm = Some rg ->
    next_id sm <= k ->
    Forall (fun i => i < next_id sm) (cooldown_steps sm) /\
    Forall (group_unflagged (cooldown_steps sm) (S k))
      (all_groups (set_repeat_group (Some (append_step rg (mkStep k t))) sm)).
Proof.
  intros t rg sm k [Hids H] E Hk.
  apply all_groups_spec in H. destruct H as [Hg [Hc Hr]].
  split; [exact Hids|].
  apply all_groups_spec; cbn. split; [|split].
  - eapply Forall_impl; [|exact Hg].
    intros g. apply group_unflagged_weaken. lia.
  - eapply group_unflagged_weaken; [|exact Hc]. lia.
  - intros rg' E'. inversion E'; subst.
    eapply group_unflagged_append; eauto.
Qed.

Lemma flagged_add_new_step : forall t ir sm,
    flagged_in_cooldown sm ->
    flagged_in_cooldown
      (_add_step (mkStep (next_id sm) t) ir (set_next_id (S (next_id sm)) sm)).
Proof.
  intros t ir sm H. unfold _add_step. cbn [repeat_group set_next_id hills_mode
    repeat_first_step_pending text].
  destruct ir; [|apply (flagged_append_current t sm H)].
  destruct (repeat_group sm) as [rg|] eqn:E;
    [|apply (flagged_append_current t sm H)].
  destruct (hills_mode sm && repeat_first_step_pending sm).
  - destruct (Py.startswith t "- "); cbn [new_str set_next_id next_id];
      match goal with
      | |- context [mkStep _ ?t'] =>
          destruct (flagged_append_repeat t' rg sm (S (next_id sm)) H E
                      (Nat.le_succ_diag_r _)) as [Hids Hall]
      end;
      (split; cbn; [eapply Forall_impl; [|exact Hids]; cbn; intros; lia
                   | exact Hall]).
  - destruct (flagged_append_repeat t rg sm (next_id sm) H E (Nat.le_refl _))
      as [Hids Hall].
    split; cbn; [eapply Forall_impl; [|exact Hids]; cbn; intros; lia | exact Hall].
Qed.

Lemma flagged_emit : forall t ir sm,
    flagged_in_cooldown sm -> flagged_in_cooldown (emit t ir sm).
Proof.
  intros t ir sm H. unfold emit. cbn [new_str]. apply flagged_add_new_step. exact H.
Qed.

Lemma flagged_unknown_fragment : forall sm,
    flagged_in_cooldown sm -> flagged_in_cooldown (unknown_fragment sm).
Proof.
  intros sm H. unfold unknown_fragment, _add_hills_fallback_if_needed.
  destruct (hills_mode (set_partial true sm)
            && negb (hills_fallback_added (set_partial true sm))).
  - cbn [new_str].
    apply (flagged_append_current "- 2m Z1-Z2 Pace" (set_partial true sm)) in H.
    exact H.
  - exact H.
Qed.

(** The "cool down" rule: the step goes to the new group titled "Cooldown",
    and only then is its identity remembered. *)
Lemma flagged_cool_down : forall t sm,
    flagged_in_cooldown sm ->
    flagged_in_cooldown (cool_down_step t sm).
Proof.
  unfold cool_down_step.
  intros t sm H. apply (flagged_start_group "Cooldown") in H.
  cbv zeta. cbn [new_str].
  remember (_start_group "Cooldown" sm) as sm1 eqn:E1.
  assert (Hcur : title (current sm1) = "Cooldown") by (subst sm1; reflexivity).
  destruct H as [Hids H]. apply all_groups_spec in H. destruct H as [Hg [Hc Hr]].
  unfold _add_step. cbn [step_id].
  split.
  - cbn. constructor; [lia|].
    eapply Forall_impl; [|exact Hids]. cbn. intros; lia.
  - apply all_groups_spec; cbn. split; [|split].
    + eapply Forall_impl; [|exact Hg]. intros g Hgu.
      eapply group_unflagged_weaken; [apply Nat.le_succ_diag_r|].
      apply group_unflagged_flag; [apply Nat.le_refl | exact Hgu].
    + unfold group_unflagged, append_step, is_cooldown_title. cbn [steps title].
      rewrite Hcur. apply Forall_app. split.
      * eapply Forall_impl; [|exact Hc]. intros s [Hlt _].
        split; [lia | intros F; discriminate].
      * constructor; [|constructor]. cbn. split; [lia | intros F; discriminate].
    + intros rg E.
      eapply group_unflagged_weaken; [apply Nat.le_succ_diag_r|].
      apply group_unflagged_flag; [apply Nat.le_refl | apply Hr; exact E].
Qed.

Lemma flagged_process_fragment : forall frag agc ir sm,
    flagged_in_cooldown sm ->
    flagged_in_cooldown (_process_fragment frag agc ir sm).
Proof.
  intros frag agc ir sm H.
  destruct (process_fragment_outcome frag agc ir sm).
  - exact H.
  - apply flagged_emit, flagged_start_group, H.
  - apply flagged_cool_down, H.
  - apply flagged_emit, H.
  - apply flagged_unknown_fragment, H.
Qed.

Lemma flagged_process_fragments : forall frags agc ir sm,
    flagged_in_cooldown sm ->
    flagged_in_cooldown (process_fragments frags agc ir sm).
Proof.
  intros frags agc ir.
  induction frags as [|f frags IH]; intros sm H.
  - exact H.
  - rewrite process_fragments_cons.
    apply IH. apply flagged_process_fragment. exact H.
Qed.

Lemma flagged_process_line : forall sm raw,
    flagged_in_cooldown sm -> flagged_in_cooldown (process_line sm raw).
Proof.
  intros sm raw H.
  destruct (process_line_outcome sm raw).
  - exact H.
  - apply flagged_set_state, flagged_close_repeat_group, H.
  - apply flagged_set_state, H.
  - apply flagged_set_state, flagged_start_repeat_group, H.
  - apply flagged_process_fragments, H.
  - apply flagged_process_fragments, H.
  - apply flagged_process_fragments, flagged_set_state, H.
Qed.

Lemma flagged_run_body : forall lines sm,
    flagged_in_cooldown sm -> flagged_in_cooldown (run_body sm lines).
Proof.
  induction lines as [|l lines IH]; intros sm H.
  - exact H.
  - rewrite run_body_cons. apply IH. apply flagged_process_line. exact H.
Qed.

Lemma flagged_finish_groups : forall sm,
    flagged_in_cooldown sm -> flagged_in_cooldown (finish_groups sm).
Proof.
  intros sm H. unfold finish_groups. apply flagged_flush_current.
  destruct (in_repeat (state sm)); [apply flagged_close_repeat_group|]; exact H.
Qed.

Lemma flagged_before_postprocess : forall name description,
    flagged_in_cooldown (before_postprocess name description).
Proof.
  intros. unfold before_postprocess.
  apply flagged_finish_groups, flagged_run_body, flagged_init.
Qed.

(** With every flagged step in a group titled "Cooldown", the relocation
    finds nothing to move. *)
Lemma postprocess_noop : forall sm,
    flagged_in_cooldown sm -> _postprocess_trailing_cooldown sm = sm.
Proof.
  intros sm [_ H]. apply all_groups_spec in H. destruct H as [Hg _].
  unfold _postprocess_trailing_cooldown.
  destruct (unsnoc (groups sm)) as [[before lg]|] eqn:E; [|reflexivity].
  destruct (String.eqb (title lg) "Main Set") eqn:Et; [|reflexivity].
  cbn [negb].
  destruct (unsnoc (steps lg)) as [[i st]|] eqn:Es; [|reflexivity].
  apply unsnoc_some in E. apply unsnoc_some in Es.
  rewrite E in Hg. apply Forall_app in Hg. destruct Hg as [_ Hlg].
  inversion Hlg as [|? ? Hl _]; subst.
  unfold group_unflagged in Hl. rewrite Es in Hl.
  apply Forall_app in Hl. destruct Hl as [_ Hst].
  inversion Hst as [|? ? [_ Hf] _]; subst.
  unfold is_cooldown_step. rewrite Hf; [reflexivity|].
  unfold is_cooldown_title. apply String.eqb_eq in Et. rewrite Et. reflexivity.
Qed.

Lemma flagged_only_in_cooldown_of : forall sm,
    flagged_in_cooldown sm -> flagged_only_in_cooldown sm = true.
Proof.
  intros sm [_ H]. apply all_groups_spec in H. destruct H as [Hg _].
  unfold flagged_only_in_cooldown. apply forallb_forall. intros g Hin.
  rewrite Forall_forall in Hg. specialize (Hg g Hin).
  apply forallb_forall. intros s Hs.
  unfold group_unflagged in Hg. rewrite Forall_forall in Hg.
  destruct (Hg s Hs) as [_ Hf].
  unfold is_cooldown_step.
  destruct (is_cooldown_title g).
  - apply Bool.implb_true_r.
  - rewrite (Hf eq_refl). reflexivity.
Qed.

(** X1: for every title and description, each step whose identity was
    recorded by the "cool down" rule sits in a group titled "Cooldown" when
    the loop is over, so [_postprocess_trailing_cooldown] moves nothing: the
    machine, and with it the sequence of groups, is the same after it as
    before it. *)
Theorem postprocess_trailing_cooldown_is_noop :
  forall name description : string,
    flagged_only_in_cooldown (before_postprocess name description) = true /\
    _postprocess_trailing_cooldown (before_postprocess name description)
      = before_postprocess name description /\
    groups (final_machine name description)
      = groups (before_postprocess name description).
Proof.
  intros name description.
  pose proof (flagged_before_postprocess name description) as H.
  split; [apply flagged_only_in_cooldown_of; exact H|].
  unfold final_machine. rewrite (postprocess_noop _ H). split; reflexivity.
Qed.

(** ** Finished groups only grow; the repeat group and the repeat states *)

Lemma grows_refl : forall sm, grows sm sm.
Proof. intros sm. exists []. rewrite app_nil_r. split; [reflexivity | constructor]. Qed.

Lemma grows_trans : forall a b c, grows a b -> grows b c -> grows a c.
Proof.
  intros a b c [m1 [E1 F1]] [m2 [E2 F2]]. exists (m1 ++ m2)%list.
  rewrite E2, E1, app_assoc. split; [reflexivity | apply Forall_app; auto].
Qed.

Lemma grows_same_groups : forall sm sm', groups sm' = groups sm -> grows sm sm'.
Proof.
  intros sm sm' E. exists []. rewrite app_nil_r. split; [exact E | constructor].
Qed.

Lemma same_mode_refl : forall sm, same_mode sm sm.
Proof. intros sm. split; reflexivity. Qed.

Lemma same_mode_trans : forall a b c,
    same_mode a b -> same_mode b c -> same_mode a c.
Proof.
  intros a b c [S1 R1] [S2 R2]. split; congruence.
Qed.

Lemma grows_flush_current : forall sm, grows sm (_flush_current sm).
Proof.
  intros sm. unfold _flush_current.
  destruct (has_steps (current sm)) eqn:E.
  - exists [current sm]. split; [reflexivity|].
    constructor; [exact E | constructor].
  - apply grows_same_groups. reflexivity.
Qed.

Lemma same_mode_flush_current : forall sm, same_mode sm (_flush_current sm).
Proof.
  intros sm. unfold _flush_current.
  destruct (has_steps (current sm)); split; reflexivity.
Qed.

Lemma grows_add_step : forall step ir sm, grows sm (_add_step step ir sm).
Proof.
  intros step ir sm. apply grows_same_groups. unfold _add_step.
  destruct ir; [|reflexivity].
  destruct (repeat_group sm); [|reflexivity].
  destruct (hills_mode sm && repeat_first_step_pending sm); [|reflexivity].
  destruct (Py.startswith (text step) "- "); reflexivity.
Qed.

Lemma same_mode_add_step : forall step ir sm,
    same_mode sm (_add_step step ir sm).
Proof.
  intros step ir sm. unfold same_mode, _add_step.
  destruct ir; [|split; reflexivity].
  destruct (repeat_group sm) eqn:E;
    [|split; [reflexivity | cbn; rewrite E; reflexivity]].
  destruct (hills_mode sm && repeat_first_step_pending sm);
    [|split; reflexivity].
  destruct (Py.startswith (text step) "- "); split; reflexivity.
Qed.

Lemma grows_emit : forall t ir sm, grows sm (emit t ir sm).
Proof.
  intros t ir sm. unfold emit. cbn [new_str].
  eapply grows_trans; [|apply grows_add_step].
  apply grows_same_groups. reflexivity.
Qed.

Lemma same_mode_emit : forall t ir sm, same_mode sm (emit t ir sm).
Proof.
  intros t ir sm. unfold emit. cbn [new_str].
  eapply same_mode_trans; [|apply same_mode_add_step].
  split; reflexivity.
Qed.

Lemma grows_start_group : forall t sm, grows sm (_start_group t sm).
Proof.
  intros t sm. unfold _start_group.
  eapply grows_trans; [apply grows_flush_current|].
  apply grows_same_groups. reflexivity.
Qed.

Lemma same_mode_start_group : forall t sm, same_mode sm (_start_group t sm).
Proof.
  intros t sm. unfold _start_group.
  eapply same_mode_trans; [apply same_mode_flush_current|].
  split; reflexivity.
Qed.

Lemma grows_cool_down_step : forall t sm, grows sm (cool_down_step t sm).
Proof.
  intros t sm. unfold cool_down_step. cbv zeta. cbn [new_str].
  eapply grows_trans; [apply (grows_start_group "Cooldown")|].
  eapply grows_trans; [|apply grows_same_groups; reflexivity].
  eapply grows_trans; [|apply grows_add_step].
  apply grows_same_groups. reflexivity.
Qed.

Lemma same_mode_cool_down_step : forall t sm,
    same_mode sm (cool_down_step t sm).
Proof.
  intros t sm. unfold cool_down_step. cbv zeta. cbn [new_str].
  eapply same_mode_trans; [apply (same_mode_start_group "Cooldown")|].
  eapply same_mode_trans; [|split; reflexivity].
  eapply same_mode_trans; [|apply same_mode_add_step].
  split; reflexivity.
Qed.

Lemma grows_unknown_fragment : forall sm, grows sm (unknown_fragment sm).
Proof.
  intros sm. apply grows_same_groups.
  unfold unknown_fragment, _add_hills_fallback_if_needed.
  destruct (hills_mode (set_partial true sm)
            && negb (hills_fallback_added (set_partial true sm))); reflexivity.
Qed.

Lemma same_mode_unknown_fragment : forall sm,
    same_mode sm (unknown_fragment sm).
Proof.
  intros sm. unfold unknown_fragment, _add_hills_fallback_if_needed.
  destruct (hills_mode (set_partial true sm)
            && negb (hills_fallback_added (set_partial true sm)));
    split; reflexivity.
Qed.

Lemma frame_process_fragment : forall frag agc ir sm,
    grows sm (_process_fragment frag agc ir sm) /\
    same_mode sm (_process_fragment frag agc ir sm).
Proof.
  intros frag agc ir sm.
  destruct (process_fragment_outcome frag agc ir sm).
  - split; [apply grows_refl | apply same_mode_refl].
  - split.
    + eapply grows_trans; [apply grows_start_group | apply grows_emit].
    + eapply same_mode_trans; [apply same_mode_start_group | apply same_mode_emit].
  - split; [apply grows_cool_down_step | apply same_mode_cool_down_step].
  - split; [apply grows_emit | apply same_mode_emit].
  - split; [apply grows_unknown_fragment | apply same_mode_unknown_fragment].
Qed.

Lemma frame_process_fragments : forall frags agc ir sm,
    grows sm (process_fragments frags agc ir sm) /\
    same_mode sm (process_fragments frags agc ir sm).
Proof.
  intros frags agc ir.
  induction frags as [|f frags IH]; intros sm.
  - split; [apply grows_refl | apply same_mode_refl].
  - rewrite process_fragments_cons.
    destruct (frame_process_fragment f agc ir sm) as [G1 M1].
    destruct (IH (_process_fragment f agc ir sm)) as [G2 M2].
    split; [eapply grows_trans; eauto | eapply same_mode_trans; eauto].
Qed.

Lemma grows_close_repeat_group : forall sm, grows sm (_close_repeat_group sm).
Proof.
  intros sm. unfold _close_repeat_group.
  destruct (repeat_group sm) as [rg|]; [|apply grows_same_groups; reflexivity].
  destruct (has_steps rg) eqn:E; [|apply grows_same_groups; reflexivity].
  exists [rg]. split; [reflexivity | constructor; [exact E | constructor]].
Qed.

Lemma grows_start_repeat_group : forall n sm,
    grows sm (_start_repeat_group n sm).
Proof.
  intros n sm. unfold _start_repeat_group.
  eapply grows_trans; [apply grows_flush_current|].
  apply grows_same_groups. reflexivity.
Qed.

Lemma grows_process_line : forall sm raw, grows sm (process_line sm raw).
Proof.
  intros sm raw.
  destruct (process_line_outcome sm raw).
  - apply grows_refl.
  - eapply grows_trans; [apply grows_close_repeat_group|].
    apply grows_same_groups. reflexivity.
  - apply grows_same_groups. reflexivity.
  - apply grows_trans with (_start_repeat_group reps sm);
      [apply grows_start_repeat_group|].
    apply grows_same_groups. reflexivity.
  - exact (proj1 (frame_process_fragments _ true false sm)).
  - exact (proj1 (frame_process_fragments _ false true sm)).
  - apply grows_trans with (set_state REPEAT_OPEN sm).
    + apply grows_same_groups. reflexivity.
    + exact (proj1 (frame_process_fragments _ false true
                      (set_state REPEAT_OPEN sm))).
Qed.

Lemma repeat_open_close : forall sm,
    repeat_open_in_repeat_states (set_state NORMAL (_close_repeat_group sm)).
Proof. intros sm. reflexivity. Qed.

Lemma repeat_open_process_line : forall sm raw,
    repeat_open_in_repeat_states sm ->
    repeat_open_in_repeat_states (process_line sm raw).
Proof.
  intros sm raw H. unfold repeat_open_in_repeat_states in *.
  destruct (process_line_outcome sm raw) as [|_|Es|reps Es _|Es _|Es|Es].
  - exact H.
  - reflexivity.
  - cbn [state set_state repeat_group]. rewrite <- H, Es. reflexivity.
  - reflexivity.
  - destruct (frame_process_fragments (split_on_commas (clean_line raw))
                true false sm) as [_ [S R]].
    rewrite S, R. exact H.
  - destruct (frame_process_fragments (split_on_commas (clean_line raw))
                false true sm) as [_ [S R]].
    rewrite S, R. exact H.
  - destruct (frame_process_fragments (split_on_commas (clean_line raw))
                false true (set_state REPEAT_OPEN sm)) as [_ [S R]].
    rewrite S, R. cbn [state set_state repeat_group].
    rewrite <- H, Es. reflexivity.
Qed.

Lemma grows_run_body : forall lines sm, grows sm (run_body sm lines).
Proof.
  induction lines as [|l lines IH]; intros sm.
  - apply grows_refl.
  - rewrite run_body_cons.
    eapply grows_trans; [apply grows_process_line | apply IH].
Qed.

Lemma repeat_open_run_body : forall lines sm,
    repeat_open_in_repeat_states sm ->
    repeat_open_in_repeat_states (run_body sm lines).
Proof.
  induction lines as [|l lines IH]; intros sm H.
  - exact H.
  - rewrite run_body_cons. apply IH, repeat_open_process_line, H.
Qed.

(** X2: whatever lines the machine has read, a repeat group is open exactly
    when the machine is in one of the three repeat states; and when
    [translate] has closed the groups at the end of the input, no repeat
    group is left open. *)
Theorem repeat_group_open_iff_repeat_state :
  forall (name description : string) (lines : list string),
    in_repeat (state (run_body (init name description) lines))
      = is_some (repeat_group (run_body (init name description) lines)) /\
    repeat_group (finish_groups (run_body (init name description) lines))
      = None.
Proof.
  intros name description lines.
  assert (H : repeat_open_in_repeat_states
                (run_body (init name description) lines))
    by (apply repeat_open_run_body; reflexivity).
  split; [exact H|].
  unfold repeat_open_in_repeat_states in H. unfold finish_groups.
  destruct (in_repeat (state (run_body (init name description) lines))) eqn:E.
  - unfold _flush_current, _close_repeat_group.
    destruct (has_steps _); reflexivity.
  - destruct (repeat_group (run_body (init name description) lines)) eqn:R;
      [discriminate|].
    unfold _flush_current. destruct (has_steps _); cbn; exact R.
Qed.

(** X3: the finished groups are append-only while the body lines are read:
    after any further lines the machine still has the groups it had, unchanged
    and in the same order, followed by new groups that each hold at least one
    step. *)
Theorem finished_groups_only_grow :
  forall (sm : SM) (lines : list string),
    exists more : list Group,
      groups (run_body sm lines) = (groups sm ++ more)%list /\
      forallb has_steps more = true.
Proof.
  intros sm lines. destruct (grows_run_body lines sm) as [more [E F]].
  exists more. split; [exact E|].
  apply forallb_forall. rewrite Forall_forall in F. exact F.
Qed.

(** ** A body without content *)





(** ** The two relocation passes on any machine *)

Lemma all_steps_app : forall a b,
    all_steps (a ++ b) = (all_steps a ++ all_steps b)%list.
Proof. intros a b. unfold all_steps. apply flat_map_app. Qed.

Lemma all_steps_move_to_cooldown : forall before lg init step,
    all_steps (move_to_cooldown before lg init step) =
    all_steps (before ++ [mkGroup (title lg) (init ++ [step])]).
Proof.
  intros before lg init step. unfold move_to_cooldown.
  rewrite !all_steps_app.
  destruct init as [|s0 init].
  - reflexivity.
  - rewrite all_steps_app. unfold all_steps. cbn [flat_map steps].
    rewrite !app_nil_r, <- app_assoc. reflexivity.
Qed.

Lemma unsnoc_move_to_cooldown : forall before lg init step,
    unsnoc (move_to_cooldown before lg init step) =
    Some (match init with
          | [] => before
          | _ => (before ++ [mkGroup (title lg) init])%list
          end, mkGroup "Cooldown" [step]).
Proof. intros. unfold move_to_cooldown. apply unsnoc_app. Qed.

Lemma group_eta : forall g, mkGroup (title g) (steps g) = g.
Proof. intros [t ss]. reflexivity. Qed.

(** X5: on any machine, [_postprocess_trailing_conversational_to_cooldown]
    either changes nothing or ends the groups with a group "Cooldown" of one
    step whose lower-cased text contains "conversational"; it loses,
    duplicates and reorders no step; and applying it twice is applying it
    once. *)
Theorem conversational_pass_moves_one_step :
  forall sm : SM,
    let sm' := _postprocess_trailing_conversational_to_cooldown sm in
    (sm' = sm \/
     exists before step,
       groups sm' = (before ++ [mkGroup "Cooldown" [step]])%list /\
       Py.contains "conversational" (Py.lower (text step)) = true) /\
    map text (all_steps (groups sm')) = map text (all_steps (groups sm)) /\
    _postprocess_trailing_conversational_to_cooldown sm' = sm'.
Proof.
  intros sm sm'.
  assert (Hsm' : sm' = _postprocess_trailing_conversational_to_cooldown sm)
    by reflexivity.
  clearbody sm'.
  unfold _postprocess_trailing_conversational_to_cooldown in Hsm'.
  destruct (unsnoc (groups sm)) as [[before lg]|] eqn:E.
  2:{ subst sm'. repeat split; auto.
      unfold _postprocess_trailing_conversational_to_cooldown. rewrite E.
      reflexivity. }
  destruct (String.eqb (title lg) "Main Set") eqn:Et; cbn [negb] in Hsm'.
  2:{ subst sm'. repeat split; auto.
      unfold _postprocess_trailing_conversational_to_cooldown.
      rewrite E, Et. reflexivity. }
  destruct (unsnoc (steps lg)) as [[init step]|] eqn:Es.
  2:{ subst sm'. repeat split; auto.
      unfold _postprocess_trailing_conversational_to_cooldown.
      rewrite E, Et, Es. reflexivity. }
  destruct (Py.contains "conversational" (Py.lower (text step))) eqn:Ec;
    cbn [negb] in Hsm'.
  2:{ subst sm'. repeat split; auto.
      unfold _postprocess_trailing_conversational_to_cooldown.
      rewrite E, Et, Es, Ec. reflexivity. }
  subst sm'. split; [|split].
  - right. eexists _, step. split; [|exact Ec]. reflexivity.
  - cbn [groups set_groups]. rewrite all_steps_move_to_cooldown.
    apply unsnoc_some in E. apply unsnoc_some in Es.
    rewrite E, <- Es, group_eta. reflexivity.
  - unfold _postprocess_trailing_conversational_to_cooldown.
    cbn [groups set_groups]. rewrite unsnoc_move_to_cooldown. reflexivity.
Qed.

(** X6: the same three facts for [_postprocess_trailing_cooldown], the pass
    [translate] runs, on any machine: it changes nothing or ends the groups
    with a group "Cooldown" of one step, the step whose identity is in
    [cooldown_steps]; no step is lost, duplicated or reordered; the pass is
    idempotent. *)
Theorem cooldown_pass_moves_one_step :
  forall sm : SM,
    let sm' := _postprocess_trailing_cooldown sm in
    (sm' = sm \/
     exists before step,
       groups sm' = (before ++ [mkGroup "Cooldown" [step]])%list /\
       is_cooldown_step sm step = true) /\
    all_steps (groups sm') = all_steps (groups sm) /\
    _postprocess_trailing_cooldown sm' = sm'.
Proof.
  intros sm sm'.
  assert (Hsm' : sm' = _postprocess_trailing_cooldown sm) by reflexivity.
  clearbody sm'.
  unfold _postprocess_trailing_cooldown in Hsm'.
  destruct (unsnoc (groups sm)) as [[before lg]|] eqn:E.
  2:{ subst sm'. repeat split; auto.
      unfold _postprocess_trailing_cooldown. rewrite E. reflexivity. }
  destruct (String.eqb (title lg) "Main Set") eqn:Et; cbn [negb] in Hsm'.
  2:{ subst sm'. repeat split; auto.
      unfold _postprocess_trailing_cooldown. rewrite E, Et. reflexivity. }
  destruct (unsnoc (steps lg)) as [[init step]|] eqn:Es.
  2:{ subst sm'. repeat split; auto.
      unfold _postprocess_trailing_cooldown. rewrite E, Et, Es. reflexivity. }
  destruct (is_cooldown_step sm step) eqn:Ec; cbn [negb] in Hsm'.
  2:{ subst sm'. repeat split; auto.
      unfold _postprocess_trailing_cooldown. rewrite E, Et, Es, Ec.
      reflexivity. }
  subst sm'. split; [|split].
  - right. eexists _, step. split; [|exact Ec]. reflexivity.
  - cbn [groups set_groups]. rewrite all_steps_move_to_cooldown.
    apply unsnoc_some in E. apply unsnoc_some in Es.
    rewrite E, <- Es, group_eta. reflexivity.
  - unfold _postprocess_trailing_cooldown.
    cbn [groups set_groups]. rewrite unsnoc_move_to_cooldown. reflexivity.
Qed.

(** ** Characters of the texts the helpers return *)

Lemma has_char_app : forall c a b,
    has_char c (a ++ b) = has_char c a || has_char c b.
Proof.
  intros c a b. induction a as [|x a IH]; cbn.
  - reflexivity.
  - rewrite IH. apply orb_assoc.
Qed.

Lemma chars_in_refl : forall s, chars_in s s.
Proof. intros s c H. exact H. Qed.

Lemma chars_in_trans : forall a b c,
    chars_in a b -> chars_in b c -> chars_in a c.
Proof. intros a b c H1 H2 x Hx. apply H2, H1, Hx. Qed.

Lemma chars_in_tail : forall s x t, chars_in s t -> chars_in s (String x t).
Proof. intros s x t H c Hc. cbn. rewrite (H c Hc). apply orb_true_r. Qed.

Lemma chars_in_cons : forall x s t,
    chars_in s t -> chars_in (String x s) (String x t).
Proof.
  intros x s t H c Hc. cbn in *.
  destruct (Ascii.eqb x c); [reflexivity|]. cbn in *. apply H, Hc.
Qed.

Lemma chars_in_empty : forall t, chars_in EmptyString t.
Proof. intros t c H. discriminate. Qed.



Lemma chars_in_lstrip : forall s, chars_in (Py.lstrip s) s.
Proof.
  induction s as [|x s IH]; cbn.
  - apply chars_in_refl.
  - destruct (Py.isspace x); [apply chars_in_tail, IH | apply chars_in_refl].
Qed.

Lemma chars_in_rstrip : forall s, chars_in (Py.rstrip s) s.
Proof.
  induction s as [|x s IH]; cbn.
  - apply chars_in_refl.
  - destruct (Py.rstrip s) as [|y r] eqn:E.
    + destruct (Py.isspace x); [apply chars_in_empty|].
      apply chars_in_cons, chars_in_empty.
    + apply chars_in_cons, IH.
Qed.

Lemma chars_in_strip : forall s, chars_in (Py.strip s) s.
Proof.
  intros s. unfold Py.strip.
  eapply chars_in_trans; [apply chars_in_rstrip | apply chars_in_lstrip].
Qed.




























(** ** The texts of the steps *)












(** ** Well-built groups all along the translation *)










Lemma wf_set_partial : forall v sm, groups_wf sm -> groups_wf (set_partial v sm).
Proof. intros v sm H. exact H. Qed.



















(** ** The output text *)











(** ** Fragments of a line *)

Lemma rstrip_cons : forall x t,
    Py.rstrip (String x t) =
    match Py.rstrip t with
    | EmptyString =>
        if Py.isspace x then EmptyString else String x EmptyString
    | r => String x r
    end.
Proof. reflexivity. Qed.

Lemma rstrip_idem : forall s, Py.rstrip (Py.rstrip s) = Py.rstrip s.
Proof.
  induction s as [|x s IH]; [reflexivity|].
  rewrite rstrip_cons.
  destruct (Py.rstrip s) as [|y r] eqn:E.
  - destruct (Py.isspace x) eqn:Ex; [reflexivity|].
    rewrite rstrip_cons. cbn [Py.rstrip]. rewrite Ex. reflexivity.
  - rewrite rstrip_cons, IH. reflexivity.
Qed.

Lemma rstrip_head : forall x t,
    Py.isspace x = false -> exists r, Py.rstrip (String x t) = String x r.
Proof.
  intros x t Hx. cbn. destruct (Py.rstrip t) as [|y r].
  - rewrite Hx. eexists; reflexivity.
  - eexists; reflexivity.
Qed.

Lemma lstrip_head : forall s,
    Py.lstrip s = EmptyString \/
    exists x t, Py.lstrip s = String x t /\ Py.isspace x = false.
Proof.
  induction s as [|x s IH]; cbn; [left; reflexivity|].
  destruct (Py.isspace x) eqn:Ex; [exact IH|].
  right. exists x, s. split; [reflexivity | exact Ex].
Qed.

Lemma strip_idem : forall s, Py.strip (Py.strip s) = Py.strip s.
Proof.
  intros s. unfold Py.strip.
  destruct (lstrip_head s) as [E|[x [t [E Hx]]]]; rewrite E.
  - reflexivity.
  - destruct (rstrip_head x t Hx) as [r Er]. rewrite Er.
    cbn [Py.lstrip]. rewrite Hx. rewrite <- Er. apply rstrip_idem.
Qed.

Lemma split_no_sep : forall sep s,
    Forall (fun f => has_char sep f = false) (Py.split sep s).
Proof.
  intros sep. induction s as [|x s IH]; cbn.
  - constructor; [reflexivity | constructor].
  - destruct (Ascii.eqb x sep) eqn:Ex.
    + constructor; [reflexivity | exact IH].
    + destruct (Py.split sep s) as [|f fs].
      * constructor; [cbn; rewrite Ex; reflexivity | constructor].
      * inversion IH as [|? ? Hf Hfs]; subst.
        constructor; [cbn; rewrite Ex; exact Hf | exact Hfs].
Qed.

Lemma has_char_false_chars_in : forall c s t,
    chars_in s t -> has_char c t = false -> has_char c s = false.
Proof.
  intros c s t H Ht. destruct (has_char c s) eqn:E; [|reflexivity].
  rewrite (H _ E) in Ht. discriminate.
Qed.

(** X8: the fragments of a line.  [split_on_commas] never returns an empty
    list and every fragment is stripped (stripping it again changes nothing);
    either every fragment is non-empty and holds no comma, or no part of the
    line between commas has content and the list is the one stripped line. *)
Theorem split_on_commas_fragments :
  forall line : string,
    split_on_commas line <> [] /\
    Forall (fun f => Py.strip f = f) (split_on_commas line) /\
    (Forall (fun f => f <> EmptyString /\ has_char "," f = false)
            (split_on_commas line)
     \/ (split_on_commas line = [Py.strip line] /\
         forallb (fun p => negb (nonempty (Py.strip p))) (Py.split "," line)
           = true)).
Proof.
  intros line. unfold split_on_commas.
  assert (Hall : Forall (fun f => Py.strip f = f /\ f <> EmptyString
                                  /\ has_char "," f = false)
                   (filter nonempty (map Py.strip (Py.split "," line)))).
  { apply Forall_forall. intros f Hin. apply filter_In in Hin.
    destruct Hin as [Hin Hne]. apply in_map_iff in Hin.
    destruct Hin as [g [Eg Hg]]. subst f. split; [apply strip_idem|]. split.
    - intros E. rewrite E in Hne. discriminate.
    - pose proof (split_no_sep "," line) as Hs. rewrite Forall_forall in Hs.
      eapply has_char_false_chars_in; [apply chars_in_strip | apply Hs, Hg]. }
  destruct (filter nonempty (map Py.strip (Py.split "," line))) as [|f fs] eqn:E.
  - split; [discriminate|]. split.
    + constructor; [apply strip_idem | constructor].
    + right. split; [reflexivity|].
      apply forallb_forall. intros p Hp.
      destruct (nonempty (Py.strip p)) eqn:En; [|reflexivity].
      exfalso.
      assert (Hin : In (Py.strip p)
                      (filter nonempty (map Py.strip (Py.split "," line))))
        by (apply filter_In; split; [apply in_map, Hp | exact En]).
      rewrite E in Hin. destruct Hin.
  - split; [discriminate|]. split.
    + eapply Forall_impl; [|exact Hall]. intros g [Hg _]. exact Hg.
    + left. eapply Forall_impl; [|exact Hall]. intros g [_ Hg]. exact Hg.
Qed.

(** ** Metres printed as kilometres *)

Lemma rstrip_char_app : forall ch a b,
    Py.rstrip_char ch (a ++ b) =
    match Py.rstrip_char ch b with
    | EmptyString => Py.rstrip_char ch a
    | r => a ++ r
    end.
Proof.
  intros ch a b. induction a as [|x a IH]; cbn.
  - destruct (Py.rstrip_char ch b); reflexivity.
  - rewrite IH. destruct (Py.rstrip_char ch b) as [|y r] eqn:E.
    + reflexivity.
    + destruct (a ++ String y r) eqn:Ea; [|reflexivity].
      destruct a; discriminate.
Qed.

Lemma rstrip_char_absent : forall ch s,
    has_char ch s = false -> Py.rstrip_char ch s = s.
Proof.
  intros ch. induction s as [|x s IH]; cbn; intros H; [reflexivity|].
  apply orb_false_iff in H. destruct H as [Hx Hs].
  rewrite (IH Hs). destruct s; [rewrite Hx|]; reflexivity.
Qed.

Lemma string_of_uint_digits : forall c d,
    Py.isdigit c = false -> has_char c (NilEmpty.string_of_uint d) = false.
Proof.
  intros c d Hc.
  induction d; cbn [NilEmpty.string_of_uint has_char]; try reflexivity;
    rewrite IHd; rewrite orb_false_r;
    match goal with
    | |- Ascii.eqb ?x c = false =>
        destruct (Ascii.eqb_spec x c) as [E|]; [|reflexivity];
        subst c; discriminate
    end.
Qed.

Lemma str_digits : forall c n,
    Py.isdigit c = false -> has_char c (Py.str n) = false.
Proof.
  intros c n Hc. unfold Py.str, NilZero.string_of_uint.
  destruct (N.to_uint n) eqn:E;
    try (rewrite <- E; rewrite E; apply string_of_uint_digits; exact Hc).
  cbn [has_char]. rewrite orb_false_r.
  destruct (Ascii.eqb_spec "0"%char c) as [E0|]; [|reflexivity].
  subst c. discriminate.
Qed.

(** X9: a whole number of kilometres given in metres prints without a
    decimal point: [meters_to_km_str (1000 * k)] is the decimal numeral of [k]
    followed by "km" (in the range where the float of the source is exact). *)
Theorem whole_kilometres_print_plain :
  forall k : N,
    (1000 * k < 2 ^ 52)%N ->
    meters_to_km_str (1000 * k) = Py.str k ++ "km".
Proof.
  intros k _. unfold meters_to_km_str. cbv zeta.
  replace (1000 * k / 1000)%N with k
    by (rewrite N.mul_comm, N.div_mul; [reflexivity | discriminate]).
  replace ((1000 * k) mod 1000)%N with 0%N
    by (rewrite N.mul_comm, N.Div0.mod_mul; reflexivity).
  change (pad3 0) with "000".
  rewrite (rstrip_char_app "0" (Py.str k) ("." ++ "000")).
  change (Py.rstrip_char "0" ("." ++ "000")) with ".". cbv iota.
  rewrite (rstrip_char_app "." (Py.str k) ".").
  change (Py.rstrip_char "." ".") with EmptyString. cbv iota.
  rewrite rstrip_char_absent; [reflexivity|].
  apply str_digits. reflexivity.
Qed.

Lemma whole_kilometres_print_plain_witness :
  meters_to_km_str (1000 * 3) = Py.str 3 ++ "km".
Proof.
  apply (whole_kilometres_print_plain 3). reflexivity.
Defined.

(* ================================================================== *)
(** * Around the translator *)
(* ================================================================== *)

(** ** Log levels *)

Lemma normalize_cases : forall level,
  normalize_log_level level = "DEBUG" \/ normalize_log_level level = "INFO" \/
  normalize_log_level level = "WARN" \/ normalize_log_level level = "ERROR".
Proof.
  intros level. unfold normalize_log_level. cbv zeta.
  set (lvl := Py.upper _).
  unfold has_key, LOG_LEVELS. cbn [lookup].
  destruct (String.eqb_spec "DEBUG" lvl) as [<-|_]; [cbn; auto|].
  destruct (String.eqb_spec "INFO" lvl) as [<-|_]; [cbn; auto|].
  destruct (String.eqb_spec "WARN" lvl) as [<-|_]; [cbn; auto|].
  destruct (String.eqb_spec "ERROR" lvl) as [<-|_]; [cbn; auto|].
  cbn. auto.
Qed.

Lemma is_debug_normalized : forall level,
    is_debug (normalize_log_level level) =
    Ok (String.eqb (normalize_log_level level) "DEBUG").
Proof.
  intros level.
  destruct (normalize_cases level) as [E|[E|[E|E]]]; rewrite E; reflexivity.
Qed.

Lemma filter_length_le : forall (A : Type) (f : A -> bool) (l : list A),
    (List.length (filter f l) <= List.length l)%nat.
Proof.
  intros A f l. induction l as [|x l IH]; cbn; [lia|].
  destruct (f x); cbn; lia.
Qed.

(** X10: whatever text is given as log level, [normalize_log_level]
    returns one of the four keys of [LOG_LEVELS], so the lookups of
    [is_debug] never raise [KeyError]; normalising twice is normalising
    once; and [is_debug] is true exactly when the normalised level is
    "DEBUG". *)
Theorem log_level_always_known : forall level,
    has_key (normalize_log_level level) LOG_LEVELS = true /\
    normalize_log_level (normalize_log_level level) = normalize_log_level level /\
    is_debug level = Ok (String.eqb (normalize_log_level level) "DEBUG").
Proof.
  intros level.
  destruct (normalize_cases level) as [E|[E|[E|E]]]; rewrite E;
    (split; [reflexivity|]); (split; [reflexivity|]);
    unfold is_debug; rewrite E; reflexivity.
Qed.

(** ** Validation report *)

(** X11: [make_validation_report] never raises; "total" is the number of
    results, "partial" the number of results flagged partial, "ok" the
    rest, so ok + partial = total and neither is negative; the
    "partial_examples" are present exactly when the normalised log level is
    "DEBUG", and there are min(10, partial) of them. *)
Theorem validation_report_counts : forall results log_level,
    exists rep,
      make_validation_report results log_level = Ok rep /\
      r_total rep = Z.of_nat (List.length results) /\
      (r_ok rep + r_partial rep = r_total rep)%Z /\
      (0 <= r_ok rep)%Z /\ (0 <= r_partial rep)%Z /\
      r_partial rep
        = Z.of_nat (List.length (filter is_partial_result results)) /\
      match r_partial_examples rep with
      | Some examples =>
          normalize_log_level log_level = "DEBUG" /\
          List.length examples
            = Nat.min 10 (List.length (filter is_partial_result results))
      | None => normalize_log_level log_level <> "DEBUG"
      end.
Proof.
  intros results log_level. unfold make_validation_report. cbv zeta.
  rewrite is_debug_normalized. cbn [bind].
  eexists. split; [reflexivity|]. cbn [r_total r_ok r_partial r_partial_examples].
  pose proof (filter_length_le _ is_partial_result results) as Hle.
  split; [reflexivity|]. split; [lia|]. split; [lia|]. split; [lia|].
  split; [reflexivity|].
  destruct (String.eqb_spec (normalize_log_level log_level) "DEBUG") as [E|E].
  - split; [exact E|]. rewrite length_map, length_firstn. reflexivity.
  - exact E.
Qed.

(** ** Selection logic *)

Lemma date_leb_spec : forall a b,
    date_leb a b = true <->
    (year a < year b \/
     (year a = year b /\ (month a < month b \/
                          (month a = month b /\ day a <= day b))))%N.
Proof.
  intros a b. unfold date_leb, date_ltb, date_eqb.
  rewrite !orb_true_iff, !andb_true_iff, !orb_true_iff, !andb_true_iff,
    !N.ltb_lt, !N.eqb_eq. lia.
Qed.

Lemma date_ltb_spec : forall a b,
    date_ltb a b = true <->
    (year a < year b \/
     (year a = year b /\ (month a < month b \/
                          (month a = month b /\ day a < day b))))%N.
Proof.
  intros a b. unfold date_ltb.
  rewrite !orb_true_iff, !andb_true_iff, !orb_true_iff, !andb_true_iff,
    !N.ltb_lt, !N.eqb_eq. lia.
Qed.

Lemma date_leb_trans : forall a b c,
    date_leb a b = true -> date_leb b c = true -> date_leb a c = true.
Proof. intros a b c. rewrite !date_leb_spec. lia. Qed.

Lemma date_leb_ltb_trans : forall a b c,
    date_leb a b = true -> date_ltb b c = true -> date_ltb a c = true.
Proof. intros a b c. rewrite date_leb_spec, !date_ltb_spec. lia. Qed.

Lemma filter_filter_implied : forall (A : Type) (f g : A -> bool) (l : list A),
    (forall x, g x = true -> f x = true) ->
    filter g (filter f l) = filter g l.
Proof.
  intros A f g l H. induction l as [|x l IH]; [reflexivity|].
  cbn. destruct (f x) eqn:Ef.
  - cbn. rewrite IH. reflexivity.
  - rewrite IH. destruct (g x) eqn:Eg; [|reflexivity].
    rewrite (H x Eg) in Ef. discriminate.
Qed.

Lemma filter_comm : forall (A : Type) (f g : A -> bool) (l : list A),
    filter g (filter f l) = filter f (filter g l).
Proof.
  intros A f g l. induction l as [|x l IH]; [reflexivity|].
  cbn. destruct (f x) eqn:Ef, (g x) eqn:Eg; cbn; rewrite ?Ef, ?Eg, IH; reflexivity.
Qed.

Lemma hard_guard_filter : forall t sel inc,
    hard_guard_drop_past t sel inc = filter (not_past t inc) sel.
Proof. intros t sel [|]; reflexivity. Qed.

Lemma not_past_mono : forall t1 t2 inc e,
    date_leb t1 t2 = true -> not_past t2 inc e = true -> not_past t1 inc e = true.
Proof.
  intros t1 t2 [|] e H; cbn.
  - apply date_leb_trans. exact H.
  - apply date_leb_ltb_trans. exact H.
Qed.

(** X12: when the clock does not go back between [select_events] and
    [hard_guard_drop_past], the "all workouts" option has no effect on what
    [run_sync] goes on with: the hard guard drops every event the option
    let through.  And every event kept is one of the feed that is not in
    the past (after today, or today when [include_today] is set). *)
Theorem guard_cancels_all_workouts :
  forall (today1 today2 : date) (evs : list IcsEvent)
         (include_today all_workouts next_week : bool),
    date_leb today1 today2 = true ->
    select_and_guard today1 today2 evs include_today all_workouts next_week
    = select_and_guard today1 today2 evs include_today false next_week /\
    forall kept,
      select_and_guard today1 today2 evs include_today all_workouts next_week
      = Ok kept ->
      forall e, In e kept ->
        In e evs /\ not_past today2 include_today e = true.
Proof.
  intros t1 t2 evs inc aw nw Ht.
  assert (Hsel : forall l,
             (if inc then filter (fun e => date_leb t1 (dtstart_date e)) l
              else filter (fun e => date_ltb t1 (dtstart_date e)) l)
             = filter (not_past t1 inc) l).
  { intros l. destruct inc; reflexivity. }
  assert (Hshape : forall aw',
      select_and_guard t1 t2 evs inc aw' nw =
      bind (if nw
            then bind (if inc then Ok t1 else add_days t1 1) (fun start =>
                 bind (add_days start 7) (fun stop =>
                 Ok (fun e => date_leb start (dtstart_date e)
                              && date_ltb (dtstart_date e) stop)))
            else Ok (fun _ => true))
           (fun w => Ok (filter (not_past t2 inc) (filter w evs)))).
  { intros aw'. unfold select_and_guard, select_events. cbv zeta.
    rewrite Hsel.
    assert (Hg : forall w,
               hard_guard_drop_past t2
                 (filter w (if aw' then evs else filter (not_past t1 inc) evs)) inc
               = filter (not_past t2 inc) (filter w evs)).
    { intros w. rewrite hard_guard_filter. destruct aw'; [reflexivity|].
      rewrite (filter_comm _ (not_past t1 inc) w).
      apply filter_filter_implied. intros x. apply not_past_mono. exact Ht. }
    destruct nw.
    - destruct (if inc then Ok t1 else add_days t1 1) as [start|e]; [|reflexivity].
      cbn [bind]. destruct (add_days start 7) as [stop|e]; [|reflexivity].
      cbn [bind]. rewrite Hg. reflexivity.
    - cbn [bind]. rewrite hard_guard_filter.
      assert (Ht' : forall l : list IcsEvent, filter (fun _ => true) l = l).
      { induction l as [|x l IH]; [reflexivity|]. cbn. rewrite IH. reflexivity. }
      rewrite Ht'. destruct aw'; [reflexivity|]. f_equal.
      apply filter_filter_implied. intros x. apply not_past_mono. exact Ht. }
  split.
  - rewrite (Hshape aw), (Hshape false). reflexivity.
  - intros kept. rewrite (Hshape aw).
    destruct (if nw then _ else _) as [w|e]; [|discriminate].
    cbn [bind]. intros [= <-] e He.
    apply filter_In in He. destruct He as [He Hp].
    apply filter_In in He. destruct He as [He _]. split; assumption.
Qed.

Lemma guard_cancels_all_workouts_witness :
  let today := mkDate 2026 1 20 in
  let evs := [ mkIcsEvent "a" "Easy Run" "" (mkDate 2026 1 19);
               mkIcsEvent "b" "Hills" "" (mkDate 2026 1 25) ] in
  select_and_guard today today evs false true false
  = select_and_guard today today evs false false false /\
  forall kept,
    select_and_guard today today evs false true false = Ok kept ->
    forall e, In e kept -> In e evs /\ not_past today false e = true.
Proof.
  intros today evs.
  apply (guard_cancels_all_workouts today today evs false true false).
  reflexivity.
Defined.

(** ** Build Intervals payload *)




(** ** ICS parsing *)





Lemma parse_dtstart_date_result : forall raw,
    match parse_dtstart_date raw with
    | Ok (Some d) => valid_date d = true
    | Ok None => True
    | Raise e => e = ValueError
    end.
Proof.
  intros raw. unfold parse_dtstart_date. cbv zeta.
  destruct (_ && _); [|exact I].
  unfold date_new. destruct (valid_date _) eqn:E; cbn [bind]; [exact E | reflexivity].
Qed.

Lemma ics_line_invariant : forall st line,
    Forall event_ok (events st) ->
    match ics_line st line with
    | Ok st' =>
        Forall event_ok (events st') /\
        (List.length (events st')
         <= List.length (events st) + count_ends [line])%nat
    | Raise e => e = ValueError
    end.
Proof.
  intros st line Hst. unfold ics_line.
  destruct (String.eqb_spec line "BEGIN:VEVENT") as [->|Hb].
  { split; [exact Hst | cbn; lia]. }
  destruct (String.eqb_spec line "END:VEVENT") as [->|He].
  { unfold ics_end_event. destruct (in_event st).
    - cbv zeta.
      pose proof (parse_dtstart_date_result (get_or_empty "DTSTART" (cur st))) as Hd.
      destruct (parse_dtstart_date _) as [[d|]|e]; cbn [bind].
      + destruct (nonempty _) eqn:En; cbn [events].
        * split.
          -- apply Forall_app. split; [exact Hst|].
             constructor; [|constructor].
             unfold event_ok. cbn [uid summary description dtstart_date].
             split; [|split; [|split; [|split]]].
             ++ intros E. rewrite E in En. discriminate.
             ++ apply strip_idem.
             ++ apply strip_idem.
             ++ apply strip_idem.
             ++ exact Hd.
          -- rewrite length_app. cbn. lia.
        * split; [exact Hst | lia].
      + cbn [events]. split; [exact Hst | lia].
      + exact Hd.
    - cbn [events]. split; [exact Hst | lia]. }
  destruct (_ || _).
  { split; [exact Hst | lia]. }
  destruct (Py.split_once ":" line) as [k v].
  cbn [events]. split; [exact Hst | lia].
Qed.

Lemma count_ends_cons : forall l ls,
    count_ends (l :: ls) = (count_ends [l] + count_ends ls)%nat.
Proof.
  intros l ls. unfold count_ends. cbn [filter].
  destruct (String.eqb END_VEVENT l); cbn; lia.
Qed.

Lemma ics_lines_invariant : forall lines st,
    Forall event_ok (events st) ->
    match ics_lines st lines with
    | Ok st' =>
        Forall event_ok (events st') /\
        (List.length (events st')
         <= List.length (events st) + count_ends lines)%nat
    | Raise e => e = ValueError
    end.
Proof.
  induction lines as [|l ls IH]; intros st Hst.
  - cbn. split; [exact Hst | lia].
  - cbn [ics_lines].
    pose proof (ics_line_invariant st l Hst) as H1.
    destruct (ics_line st l) as [st1|e]; cbn [bind]; [|exact H1].
    destruct H1 as [Hok Hlen].
    pose proof (IH st1 Hok) as H2.
    destruct (ics_lines st1 ls) as [st2|e]; [|exact H2].
    destruct H2 as [Hok2 Hlen2]. split; [exact Hok2|].
    rewrite count_ends_cons. lia.
Qed.

(** X15: [parse_ics_events] raises nothing but the [ValueError] of a
    DTSTART that is not a date; every event it returns has a UID that is not
    empty, a UID, summary and description without blanks around them and a
    date of the calendar; and it returns at most one event for each
    "END:VEVENT" line of the unfolded text. *)
Theorem parsed_events_are_complete : forall text : string,
    match parse_ics_events text with
    | Ok evs =>
        Forall event_ok evs /\
        (List.length evs <= count_ends (unfold_ics_lines text))%nat
    | Raise e => e = ValueError
    end.
Proof.
  intros text. unfold parse_ics_events.
  pose proof (ics_lines_invariant (unfold_ics_lines text)
                (mkIcsParser [] [] false) (Forall_nil _)) as H.
  destruct (ics_lines _ _) as [st|e]; cbn [bind]; exact H.
Qed.

Lemma prefix_cons_head : forall c p x t,
    String.prefix (String c p) (String x t) = true -> x = c.
Proof.
  intros c p x t H. apply prefix_correct in H. cbn in H. congruence.
Qed.

Lemma prefix_length : forall p s,
    String.prefix p s = true -> (String.length p <= String.length s)%nat.
Proof.
  induction p as [|c p IH]; intros s H; [cbn; lia|].
  destruct s as [|x t].
  - apply prefix_correct in H. cbn in H. discriminate.
  - apply prefix_correct in H. cbn in H. injection H as _ H.
    apply prefix_correct in H. apply IH in H. cbn. lia.
Qed.

Lemma replace_absent : forall c p new s,
    has_char c s = false ->
    Py.replace (String c p) new s = s.
Proof.
  intros c p new s. unfold Py.replace.
  induction s as [|x t IH]; intros H; [reflexivity|].
  cbn [has_char] in H. apply orb_false_iff in H. destruct H as [Hx Ht].
  cbn [Py.replace_from].
  destruct (String.prefix (String c p) (String x t)) eqn:E.
  - apply prefix_cons_head in E. subst x. rewrite Ascii.eqb_refl in Hx. discriminate.
  - rewrite (IH Ht). reflexivity.
Qed.

(** X16: a text that holds no backslash is returned by [ics_unescape] as
    it is. *)
Theorem ics_unescape_plain_text : forall s : string,
    has_char "092" s = false -> ics_unescape s = s.
Proof.
  intros s H. unfold ics_unescape, BACKSLASH. cbv zeta. cbn [append].
  rewrite !(replace_absent _ _ _ s H). reflexivity.
Qed.

Lemma ics_unescape_plain_text_witness :
  ics_unescape "Rolling 400s" = "Rolling 400s".
Proof.
  apply (ics_unescape_plain_text "Rolling 400s"). reflexivity.
Defined.

Lemma no_break_snoc : forall cur c,
    no_break cur -> Py.islinebreak c = false ->
    no_break (cur ++ String c EmptyString).
Proof.
  intros cur c Hc Hb x Hx. rewrite has_char_app in Hx.
  apply orb_true_iff in Hx. destruct Hx as [Hx|Hx]; [apply Hc, Hx|].
  cbn in Hx. rewrite orb_false_r in Hx. apply Ascii.eqb_eq in Hx. subst x. exact Hb.
Qed.

Lemma no_break_empty : no_break EmptyString.
Proof. intros c H. discriminate. Qed.

Lemma no_break_splitlines_aux : forall n s cur,
    (String.length s <= n)%nat -> no_break cur ->
    Forall no_break (Py.splitlines_aux cur s).
Proof.
  induction n as [|n IH]; intros s cur Hn Hcur.
  - destruct s; [|cbn in Hn; lia]. cbn.
    destruct cur; constructor; [exact Hcur | constructor].
  - destruct s as [|c t]; cbn [Py.splitlines_aux].
    + destruct cur; constructor; [exact Hcur | constructor].
    + cbn in Hn.
      destruct (Py.islinebreak c) eqn:Eb.
      * destruct t as [|d t'].
        -- constructor; [exact Hcur | constructor].
        -- destruct ((Py.code c =? 13)%N && (Py.code d =? 10)%N).
           ++ constructor; [exact Hcur|].
              apply IH; [cbn in Hn; lia | apply no_break_empty].
           ++ constructor; [exact Hcur|].
              apply IH; [lia | apply no_break_empty].
      * apply IH; [lia|]. apply no_break_snoc; assumption.
Qed.

Lemma no_break_splitlines : forall s, Forall no_break (Py.splitlines s).
Proof.
  intros s. unfold Py.splitlines.
  apply (no_break_splitlines_aux (String.length s)); [lia | apply no_break_empty].
Qed.

Lemma rstrip_chars_no_break : forall s,
    no_break s -> Py.rstrip_chars CRLF_CHARS s = s.
Proof.
  induction s as [|c t IH]; intros H; [reflexivity|].
  cbn [Py.rstrip_chars]. rewrite IH.
  2:{ intros x Hx. apply H. cbn. rewrite Hx. apply orb_true_r. }
  destruct t as [|d t']; [|reflexivity].
  assert (Hc : Py.islinebreak c = false).
  { apply H. cbn. rewrite Ascii.eqb_refl. reflexivity. }
  cbn. destruct (Ascii.eqb_spec c "013") as [->|_]; [discriminate Hc|].
  destruct (Ascii.eqb_spec c "010") as [->|_]; [discriminate Hc|].
  reflexivity.
Qed.

Lemma no_break_drop : forall n s, no_break s -> no_break (Py.drop n s).
Proof.
  induction n as [|n IH]; intros s H; [exact H|].
  destruct s as [|c t]; [exact H|]. cbn. apply IH.
  intros x Hx. apply H. cbn. rewrite Hx. apply orb_true_r.
Qed.

Lemma no_break_app : forall a b, no_break a -> no_break b -> no_break (a ++ b).
Proof.
  intros a b Ha Hb c Hc. rewrite has_char_app in Hc.
  apply orb_true_iff in Hc. destruct Hc; auto.
Qed.

Lemma string_app_assoc : forall a b c : string, (a ++ b) ++ c = a ++ b ++ c.
Proof. induction a as [|x a IH]; intros b c; cbn; [reflexivity|]. rewrite IH. reflexivity. Qed.

Lemma string_app_nil_r : forall a : string, a ++ "" = a.
Proof. induction a as [|x a IH]; cbn; [reflexivity|]. rewrite IH. reflexivity. Qed.

Lemma join_empty_cons : forall x l, Py.join "" (x :: l) = x ++ Py.join "" l.
Proof. intros x [|y l]; [cbn; rewrite string_app_nil_r|]; reflexivity. Qed.

Lemma join_empty_snoc : forall l x, Py.join "" (l ++ [x]) = Py.join "" l ++ x.
Proof.
  induction l as [|a l IH]; intros x; [reflexivity|].
  cbn [app]. rewrite !join_empty_cons, IH, string_app_assoc. reflexivity.
Qed.

Lemma append_to_last_snoc : forall l x more,
    append_to_last (l ++ [x]) more = (l ++ [(x ++ more)%string])%list.
Proof.
  induction l as [|a l IH]; intros x more; [reflexivity|].
  cbn [app]. destruct (l ++ [x])%list as [|b r] eqn:E.
  - destruct l; discriminate.
  - change (append_to_last (a :: b :: r) more)
      with (a :: append_to_last (b :: r) more).
    rewrite <- E, IH. reflexivity.
Qed.

Lemma unfold_step_spec : forall l x ln,
    no_break ln ->
    unfold_step (l ++ [x]) ln
    = if is_continuation ln then (l ++ [(x ++ Py.drop 1 ln)%string])%list
      else ((l ++ [x]) ++ [ln])%list.
Proof.
  intros l x ln H. unfold unfold_step.
  destruct (l ++ [x])%list as [|b r] eqn:E; [destruct l; discriminate|].
  rewrite <- E. destruct (is_continuation ln).
  - apply append_to_last_snoc.
  - rewrite (rstrip_chars_no_break ln H). reflexivity.
Qed.

Lemma unfold_from : forall lines l x,
    Forall no_break lines -> Forall no_break (l ++ [x])%list ->
    let out := fold_left unfold_step lines (l ++ [x])%list in
    Py.join "" out = Py.join "" (l ++ [x]) ++ Py.join "" (map unfolded lines) /\
    List.length out
    = (List.length (l ++ [x]) + List.length (filter starts_line lines))%nat /\
    Forall no_break out.
Proof.
  induction lines as [|ln lines IH]; intros l x Hl Hout.
  - cbn. rewrite string_app_nil_r. repeat split; [lia | exact Hout].
  - inversion Hl as [|? ? Hln Hlines]; subst.
    cbn [fold_left]. rewrite (unfold_step_spec l x ln Hln).
    cbn [map filter]. unfold starts_line at 1, unfolded at 1.
    rewrite join_empty_cons.
    apply Forall_app in Hout. destruct Hout as [Hl0 Hx].
    inversion Hx as [|? ? Hx0 _]; subst.
    destruct (is_continuation ln) eqn:Ec; cbn [negb].
    + destruct (IH l (x ++ Py.drop 1 ln) Hlines) as [H1 [H2 H3]].
      { apply Forall_app. split; [exact Hl0|]. constructor; [|constructor].
        apply no_break_app; [exact Hx0 | apply no_break_drop, Hln]. }
      split; [|split; [|exact H3]].
      * rewrite H1, !join_empty_snoc, !string_app_assoc. reflexivity.
      * rewrite H2, !length_app. reflexivity.
    + destruct (IH (l ++ [x])%list ln Hlines) as [H1 [H2 H3]].
      { apply Forall_app. split; [|constructor; [exact Hln | constructor]].
        apply Forall_app. split; [exact Hl0 | constructor; [exact Hx0 | constructor]]. }
      split; [|split; [|exact H3]].
      * rewrite H1, (join_empty_snoc (l ++ [x])), !string_app_assoc. reflexivity.
      * rewrite H2, (length_app (l ++ [x])). cbn [List.length]. lia.
Qed.

(** X17: [unfold_ics_lines] loses no character but the first one of each
    continuation line: the unfolded lines put end to end are the first line
    of the text followed by the later lines, each continuation line (one
    that begins with a space or a tab) without its first character.  The
    first line is never taken as a continuation; there is one unfolded line
    for it and one for each later line that is not a continuation; and no
    unfolded line holds a line boundary. *)
Theorem unfold_keeps_every_character : forall text : string,
    match Py.splitlines text with
    | [] => unfold_ics_lines text = []
    | first :: others =>
        Py.join "" (unfold_ics_lines text)
        = first ++ Py.join "" (map unfolded others) /\
        List.length (unfold_ics_lines text)
        = S (List.length (filter starts_line others)) /\
        Forall no_break (unfold_ics_lines text)
    end.
Proof.
  intros text. unfold unfold_ics_lines.
  pose proof (no_break_splitlines text) as H.
  destruct (Py.splitlines text) as [|first others]; [reflexivity|].
  inversion H as [|? ? Hf Ho]; subst.
  cbn [fold_left].
  change (unfold_step [] first) with [Py.rstrip_chars CRLF_CHARS first].
  rewrite (rstrip_chars_no_break first Hf).
  destruct (unfold_from others [] first Ho) as [H1 [H2 H3]].
  { constructor; [exact Hf | constructor]. }
  cbn [app] in H1, H2, H3. split; [exact H1|]. split; [exact H2 | exact H3].
Qed.
